(** * Search result component: aggregation and lazy rendering

    A shallow embedding of
    [src/assets/javascripts/components/Material/Search/Result.jsx]
    (the Elasticsearch-backed [Result] class): the helper [truncate], the
    [update] method with its two completion callbacks, the render closures
    pushed onto [stack_] and the two loops that drain it.

    JavaScript strings are modelled by [string], the [undefined] value of an
    optional property by [None], an array by a [list], and the mutable
    instance [this] by the record [Result], threaded through a state and
    exception monad.  The Elasticsearch client and the browser (events,
    layout) are the environment: requests are recorded in the state and
    their completions arrive as inputs. *)

From Stdlib Require Import ZArith String Ascii List Lia.
From stdpp Require Import base list strings pretty.

Local Open Scope string_scope.
Local Open Scope Z_scope.
Local Open Scope list_scope.

(* ------------------------------------------------------------------ *)
(** ** Functions *)
(* ------------------------------------------------------------------ *)

Module Str.

(** [c === " "] for the result [c] of indexing a string; an index out of
    range yields [undefined], which is not a space. *)
Definition is_space (c : option ascii) : bool :=
  match c with
  | Some c => Ascii.eqb c " "
  | None => false
  end.

(** [String.prototype.substring(a, b)]: both arguments are clamped to
    [0 .. length] and swapped when [a > b]. *)
Definition substring (s : string) (a b : Z) : string :=
  let len := Z.of_nat (String.length s) in
  let a' := Z.min (Z.max a 0) len in
  let b' := Z.min (Z.max b 0) len in
  let lo := Z.min a' b' in
  let hi := Z.max a' b' in
  String.substring (Z.to_nat lo) (Z.to_nat (hi - lo)) s.

(** [s.replace("#", by)]: a string pattern replaces its first occurrence
    only. *)
Fixpoint replace_hash (s by_ : string) : string :=
  match s with
  | EmptyString => EmptyString
  | String c s' =>
      if Ascii.eqb c "#" then by_ +:+ s' else String c (replace_hash s' by_)
  end.

End Str.

(** The loop [while (string[i] !== " " && --i > 0);] started at [i], as the
    value of [i] when it ends.  The pre-decrement makes the loop stop as
    soon as [i] reaches [0], without testing [string[0]]; started at [0] on
    a non-space it leaves [i = -1]. *)
Fixpoint truncate_scan (str : string) (i : nat) : Z :=
  if Str.is_space (String.get i str) then Z.of_nat i
  else match i with
       | O => -1
       | S j => if 0 <? Z.of_nat j then truncate_scan str j else Z.of_nat j
       end.

(** [truncate(string, n)]. *)
Definition truncate (str : string) (n : nat) : string :=
  if Z.of_nat (String.length str) >? Z.of_nat n
  then Str.substring str 0 (truncate_scan str n) +:+ "..."
  else str.

(* ------------------------------------------------------------------ *)
(** ** Search engine data *)
(* ------------------------------------------------------------------ *)

(** [hit.highlight]: each field is an array of marked-up fragments, present
    only when the engine matched that field. *)
Record Highlight := {
  hl_title : option (list string);
  hl_text : option (list string)
}.

(** [hit._source].  Stage-1 hits are requested with [title] and [location]
    only; their [text] is never read. *)
Record Source := {
  title : string;
  location : string;
  text : string
}.

Record Hit := {
  _id : string;
  _source : Source;
  highlight : option Highlight
}.

(** The stage-1 response: [response.hits.hits] and
    [response.hits.total.value]. *)
Record SearchResponse := {
  hits : list Hit;
  total : Z
}.

(** The stage-2 response [sections_response.responses]: one
    [section_hit.hits.hits] array per query of the batch. *)
Definition MsearchResponse := list (list Hit).

(** [buildElasticSearchQuery(query_value)]: the body is constant
    ([_source: [title, location]], [size: 50], [parent_document] matching
    [full_doc], title boost 5, text boost 3, [<em>] highlight tags) apart
    from the query text. *)
Record DocumentQuery := {
  dq_size : Z;
  dq_query : string
}.

Definition buildElasticSearchQuery (query_value : string) : DocumentQuery :=
  {| dq_size := 50; dq_query := query_value |}.

(** [section_post_body]: constant apart from [size], the parent id and the
    query text, which is [outer_this.value_] read when the stage-1 callback
    runs. *)
Record SectionQuery := {
  sq_size : nat;
  sq_parent_id : string;
  sq_query : option string
}.

(* ------------------------------------------------------------------ *)
(** ** Document nodes and render closures *)
(* ------------------------------------------------------------------ *)

(** The [<a>] element a section closure appends to its article. *)
Record SectionNode := {
  sec_href : string;
  sec_title : string;
  sec_title_html : option string;
  sec_teaser : string
}.

(** The [<li>] element built for a document hit; [art_teaser] is the teaser
    paragraph, present when [teaserHighlight] was truthy. *)
Record ArticleNode := {
  art_href : string;
  art_title : string;
  art_title_html : option string;
  art_teaser : option string;
  art_sections : list SectionNode
}.

(** The closures pushed onto [stack_].  [article] is the reference to the
    [<li>] element captured by the closure, an index into [nodes]. *)
Inductive RenderUnit :=
  | DocumentUnit (article : nat)
  | SectionUnit (article : nat) (hit : Hit).

Definition unit_article (u : RenderUnit) : nat :=
  match u with
  | DocumentUnit a => a
  | SectionUnit a _ => a
  end.

(** Requests handed to the Elasticsearch client, each with what its
    completion callback captured: nothing for [search], the stage-1
    [result] for [msearch]. *)
Inductive Request :=
  | Search (index : string) (body : DocumentQuery)
  | Msearch (body : list (string * SectionQuery)) (result : list Hit).

Record Messages := {
  placeholder : string;
  none : string;
  one : string;
  other : string
}.

Inductive Exn :=
  | TypeError
  | ReferenceError
  | Error (message : string).

(** ["..." + error]: [Error.prototype.toString] gives the name of the
    error, followed by a colon and the message when the message is not
    empty. *)
Definition exn_to_string (e : Exn) : string :=
  match e with
  | TypeError => "TypeError"
  | ReferenceError => "ReferenceError"
  | Error m => if (String.length m =? 0)%nat then "Error" else "Error: " +:+ m
  end.

(** The instance.  [nodes] holds every article element created so far,
    attached to [list_] or not; [requests] are the calls in flight;
    [painted] is a history variable listing the closures that ran to
    completion, in the order they ran. *)
Record Result := {
  base_url_ : string;
  es_index_name : string;
  message_ : Messages;
  meta_ : string;
  list_ : list nat;
  nodes : list ArticleNode;
  stack_ : option (list RenderUnit);
  value_ : option string;
  initialized_ : bool;
  requests : list Request;
  console : list string;
  painted : list RenderUnit
}.

Definition set_meta (v : string) (st : Result) : Result :=
  {| base_url_ := base_url_ st; es_index_name := es_index_name st;
     message_ := message_ st; meta_ := v; list_ := list_ st;
     nodes := nodes st; stack_ := stack_ st; value_ := value_ st;
     initialized_ := initialized_ st; requests := requests st;
     console := console st; painted := painted st |}.

Definition set_list (v : list nat) (st : Result) : Result :=
  {| base_url_ := base_url_ st; es_index_name := es_index_name st;
     message_ := message_ st; meta_ := meta_ st; list_ := v;
     nodes := nodes st; stack_ := stack_ st; value_ := value_ st;
     initialized_ := initialized_ st; requests := requests st;
     console := console st; painted := painted st |}.

Definition set_nodes (v : list ArticleNode) (st : Result) : Result :=
  {| base_url_ := base_url_ st; es_index_name := es_index_name st;
     message_ := message_ st; meta_ := meta_ st; list_ := list_ st;
     nodes := v; stack_ := stack_ st; value_ := value_ st;
     initialized_ := initialized_ st; requests := requests st;
     console := console st; painted := painted st |}.

Definition set_stack (v : option (list RenderUnit)) (st : Result) : Result :=
  {| base_url_ := base_url_ st; es_index_name := es_index_name st;
     message_ := message_ st; meta_ := meta_ st; list_ := list_ st;
     nodes := nodes st; stack_ := v; value_ := value_ st;
     initialized_ := initialized_ st; requests := requests st;
     console := console st; painted := painted st |}.

Definition set_value (v : option string) (st : Result) : Result :=
  {| base_url_ := base_url_ st; es_index_name := es_index_name st;
     message_ := message_ st; meta_ := meta_ st; list_ := list_ st;
     nodes := nodes st; stack_ := stack_ st; value_ := v;
     initialized_ := initialized_ st; requests := requests st;
     console := console st; painted := painted st |}.

Definition set_initialized (v : bool) (st : Result) : Result :=
  {| base_url_ := base_url_ st; es_index_name := es_index_name st;
     message_ := message_ st; meta_ := meta_ st; list_ := list_ st;
     nodes := nodes st; stack_ := stack_ st; value_ := value_ st;
     initialized_ := v; requests := requests st;
     console := console st; painted := painted st |}.

Definition set_requests (v : list Request) (st : Result) : Result :=
  {| base_url_ := base_url_ st; es_index_name := es_index_name st;
     message_ := message_ st; meta_ := meta_ st; list_ := list_ st;
     nodes := nodes st; stack_ := stack_ st; value_ := value_ st;
     initialized_ := initialized_ st; requests := v;
     console := console st; painted := painted st |}.

Definition set_console (v : list string) (st : Result) : Result :=
  {| base_url_ := base_url_ st; es_index_name := es_index_name st;
     message_ := message_ st; meta_ := meta_ st; list_ := list_ st;
     nodes := nodes st; stack_ := stack_ st; value_ := value_ st;
     initialized_ := initialized_ st; requests := requests st;
     console := v; painted := painted st |}.

Definition set_painted (v : list RenderUnit) (st : Result) : Result :=
  {| base_url_ := base_url_ st; es_index_name := es_index_name st;
     message_ := message_ st; meta_ := meta_ st; list_ := list_ st;
     nodes := nodes st; stack_ := stack_ st; value_ := value_ st;
     initialized_ := initialized_ st; requests := requests st;
     console := console st; painted := v |}.

(* ------------------------------------------------------------------ *)
(** ** Numbers *)
(* ------------------------------------------------------------------ *)

(** The string of a number of the response.  The integer the response
    writes is read as the nearest double (ties to even), and a double is
    printed with the fewest digits that read back as that double, the
    closest such digits when there is a choice; from [10 ^ 21] upward the
    exponent is written out. *)
Module Double.

(** The double nearest to the natural number [v]: integers of up to 53
    bits are doubles. *)
Definition nearest (v : Z) : Z :=
  let e := Z.log2 v + 1 - 53 in
  if e <=? 0 then v
  else
    let q := Z.shiftr v e in
    let r := Z.land v (Z.ones e) in
    let half := Z.shiftl 1 (e - 1) in
    let q' := if (half <? r) || ((r =? half) && Z.odd q) then q + 1 else q in
    Z.shiftl q' e.

(** The multiple of [10 ^ zeros] that reads back as the double [d], if
    there is one: the one below [d], the one above, or of the two the
    closer (the one with an even last digit when they are as close). *)
Definition candidate (d : Z) (zeros : nat) : option Z :=
  let p := 10 ^ Z.of_nat zeros in
  let below := d / p * p in
  let above := below + p in
  match nearest below =? d, nearest above =? d with
  | true, true =>
      Some (if d - below <? above - d then below
            else if above - d <? d - below then above
            else if Z.even (d / p) then below else above)
  | true, false => Some below
  | false, true => Some above
  | false, false => None
  end.

(** The shortest digits for [d]: the most trailing zeros first. *)
Fixpoint shortest (d : Z) (zeros : nat) : Z :=
  match candidate d zeros with
  | Some c => c
  | None => match zeros with O => d | S zeros' => shortest d zeros' end
  end.

(** Digits without their trailing zeros. *)
Fixpoint significand (digits : string) : string :=
  match digits with
  | EmptyString => EmptyString
  | String c rest =>
      match significand rest with
      | EmptyString => if Ascii.eqb c "0" then EmptyString else String c EmptyString
      | kept => String c kept
      end
  end.

Definition exponential (c : Z) : string :=
  let digits := pretty c in
  let n := Z.of_nat (String.length digits) in
  match significand digits with
  | EmptyString => digits
  | String first EmptyString => String first ("e+" +:+ pretty (n - 1))
  | String first rest => String first ("." +:+ rest +:+ "e+" +:+ pretty (n - 1))
  end.

Definition magnitude (v : Z) : string :=
  let d := nearest v in
  if 2 ^ 1024 <=? d then "Infinity"
  else
    let c := shortest d (String.length (pretty d) - 1) in
    if c <? 10 ^ 21 then pretty c else exponential c.

(** [String(n)].  Below [2 ^ 53] in absolute value every integer is a
    double and prints with all its digits. *)
Definition to_string (n : Z) : string :=
  if Z.abs n <? 2 ^ 53 then pretty n
  else if n <? 0 then "-" +:+ magnitude (- n)
  else magnitude n.

End Double.

(* ------------------------------------------------------------------ *)
(** ** State and exception monad *)
(* ------------------------------------------------------------------ *)

Inductive Outcome (A : Type) :=
  | Ok (a : A)
  | Throw (e : Exn).
Arguments Ok {A} a.
Arguments Throw {A} e.

(** A computation on the instance: it returns or throws, and the mutations
    made before a throw persist. *)
Definition M (A : Type) : Type := Result → Outcome A * Result.

#[global] Instance M_ret : MRet M := λ A a st, (Ok a, st).

#[global] Instance M_bind : MBind M := λ A B k m st,
  match m st with
  | (Ok a, st') => k a st'
  | (Throw e, st') => (Throw e, st')
  end.

Definition throw {A} (e : Exn) : M A := λ st, (Throw e, st).
Definition get : M Result := λ st, (Ok st, st).
Definition modify (f : Result → Result) : M unit := λ st, (Ok tt, f st).

Definition lift {A} (o : Outcome A) : M A := λ st, (o, st).

(** [try { m } catch (err) { h(err) }] *)
Definition try_catch {A} (m : M A) (h : Exn → M A) : M A := λ st,
  match m st with
  | (Ok a, st') => (Ok a, st')
  | (Throw e, st') => h e st'
  end.

(** [l.forEach(f)]: stops at the first throw. *)
Fixpoint forEach {A} (f : A → M unit) (l : list A) : M unit :=
  match l with
  | [] => mret tt
  | x :: l' => f x;; forEach f l'
  end.

(** [l.forEach((x, index) => f(index, x))], counting from [index]. *)
Fixpoint forEach_index {A} (f : nat → A → M unit) (index : nat) (l : list A)
  : M unit :=
  match l with
  | [] => mret tt
  | x :: l' => f index x;; forEach_index f (S index) l'
  end.

(** [l.map(f)] for an [f] that may throw. *)
Fixpoint mapM {A B} (f : A → M B) (l : list A) : M (list B) :=
  match l with
  | [] => mret []
  | x :: l' => y ← f x; ys ← mapM f l'; mret (y :: ys)
  end.

(** Reading a property of [this.stack_], a [TypeError] while it is
    [undefined]. *)
Definition read_stack : M (list RenderUnit) :=
  st ← get;
  match stack_ st with
  | Some s => mret s
  | None => throw TypeError
  end.

(** Reading a property of [hit.highlight], a [TypeError] when the hit has
    no [highlight]. *)
Definition read_highlight (hit : Hit) : Outcome Highlight :=
  match highlight hit with
  | Some hl => Ok hl
  | None => Throw TypeError
  end.

(** [es_client_.search(...)] and [es_client_.msearch(...)]: the request
    leaves, its callback runs on a later turn. *)
Definition dispatch (r : Request) : M unit :=
  modify (λ st, set_requests (requests st ++ [r]) st).

Definition console_error (msg : string) : M unit :=
  modify (λ st, set_console (console st ++ [msg]) st).

(* ------------------------------------------------------------------ *)
(** ** Class *)
(* ------------------------------------------------------------------ *)

(** The scroll container [el_.parentNode] as the layout engine presents
    it: its [offsetHeight] and [scrollHeight] are functions of the tree
    attached below [list_].  [scrollTop] comes with the scroll event. *)
Record Container := {
  offsetHeight : list ArticleNode → Z;
  scrollHeight : list ArticleNode → Z
}.

(** The article elements attached to the document, in list order. *)
Definition attached (st : Result) : list ArticleNode :=
  omap (λ a, nodes st !! a) (list_ st).

(** [parent.appendChild(child)] on a list of children: a node that is
    already a child is moved to the end. *)
Definition appendChild (children : list nat) (child : nat) : list nat :=
  filter (λ c, c ≠ child) children ++ [child].

(** [title_str]: the first highlighted fragment when the field was
    highlighted, else the plain value. *)
Definition first_or (fragments : option (list string)) (plain : string)
  : option string :=
  match fragments with
  | Some fs => head fs
  | None => Some plain
  end.

(** [truncate(text_str, 200)] on a value that may be [undefined], whose
    [length] cannot be read. *)
Definition truncate_value (text_str : option string) (n : nat)
  : Outcome string :=
  match text_str with
  | Some s => Ok (truncate s n)
  | None => Throw TypeError
  end.

(** The element a section closure builds for [hit]. *)
Definition section_node (base_url : string) (hit : Hit) : Outcome SectionNode :=
  let sectionLocation := base_url +:+ "/" +:+ location (_source hit) in
  match read_highlight hit with
  | Throw e => Throw e
  | Ok hl =>
      let title_str := first_or (hl_title hl) (title (_source hit)) in
      let text_str := first_or (hl_text hl) (text (_source hit)) in
      match truncate_value text_str 200 with
      | Throw e => Throw e
      | Ok teaser =>
          Ok {| sec_href := sectionLocation;
                sec_title := title (_source hit);
                sec_title_html := title_str;
                sec_teaser := teaser |}
      end
  end.

Definition add_section (n : SectionNode) (a : ArticleNode) : ArticleNode :=
  {| art_href := art_href a; art_title := art_title a;
     art_title_html := art_title_html a; art_teaser := art_teaser a;
     art_sections := art_sections a ++ [n] |}.

(** Running a closure taken from [stack_]: the document closure is
    [() => list_.appendChild(article)], a section closure builds its
    element and appends it to the captured article, attached or not. *)
Definition render (u : RenderUnit) : M unit :=
  match u with
  | DocumentUnit article =>
      modify (λ st, set_painted (painted st ++ [u])
                      (set_list (appendChild (list_ st) article) st))
  | SectionUnit article hit =>
      st ← get;
      n ← lift (section_node (base_url_ st) hit);
      modify (λ st, set_painted (painted st ++ [u])
                      (set_nodes (alter (add_section n) article (nodes st)) st))
  end.

(** The teaser loop: [teaserHighlight] is assigned at every section whose
    title equals the document title and whose text was highlighted. *)
Fixpoint teaser_loop (doc_title : string) (sections : list Hit)
    (teaserHighlight : option string) : Outcome (option string) :=
  match sections with
  | [] => Ok teaserHighlight
  | section_obj :: rest =>
      if String.eqb (title (_source section_obj)) doc_title then
        match read_highlight section_obj with
        | Throw e => Throw e
        | Ok hl =>
            match hl_text hl with
            | Some fs => teaser_loop doc_title rest (head fs)
            | None => teaser_loop doc_title rest teaserHighlight
            end
        end
      else teaser_loop doc_title rest teaserHighlight
  end.

(** [teaserHighlight ? <p>...</p> : {}]: the empty string and
    [undefined] are falsy. *)
Definition teaser_paragraph (teaserHighlight : option string) : option string :=
  match teaserHighlight with
  | Some s => if String.eqb s "" then None else Some s
  | None => None
  end.

(** The [<li>] element built for the stage-1 [hit] and its stage-2
    [section_hit]. *)
Definition article_node (base_url : string) (hit : Hit) (section_hit : list Hit)
  : Outcome ArticleNode :=
  let articleLocation := base_url +:+ "/" +:+ location (_source hit) in
  match read_highlight hit with
  | Throw e => Throw e
  | Ok hl =>
      let title_str := first_or (hl_title hl) (title (_source hit)) in
      match teaser_loop (title (_source hit)) section_hit (Some "") with
      | Throw e => Throw e
      | Ok teaserHighlight =>
          Ok {| art_href := articleLocation;
                art_title := title (_source hit);
                art_title_html := title_str;
                art_teaser := teaser_paragraph teaserHighlight;
                art_sections := [] |}
      end
  end.

(** The units one iteration pushes: the document closure, then one closure
    per section hit in response order. *)
Definition units_for (article : nat) (section_hit : list Hit) : list RenderUnit :=
  DocumentUnit article :: map (SectionUnit article) section_hit.

(** One iteration of [section_result.forEach((section_hit, index) => ...)]
    in the [msearch] callback. *)
Definition aggregate_one (result : list Hit) (index : nat) (section_hit : list Hit)
  : M unit :=
  st ← get;
  match result !! index with
  | None => throw TypeError
  | Some hit =>
      article ← lift (article_node (base_url_ st) hit section_hit);
      let ref := length (nodes st) in
      modify (λ st, set_nodes (nodes st ++ [article]) st);;
      s ← read_stack;
      modify (set_stack (Some (s ++ units_for ref section_hit)))
  end.

Definition aggregate (result : list Hit) (section_result : MsearchResponse)
  : M unit :=
  forEach_index (aggregate_one result) 0 section_result.

Section Drain.

Variable container : Container.

(** [container.offsetHeight >= container.scrollHeight - 16] *)
Definition has_room (st : Result) : bool :=
  offsetHeight container (attached st) >=? scrollHeight container (attached st) - 16.

(** [container.scrollTop + container.offsetHeight >=
     container.scrollHeight - 16] *)
Definition near_bottom (scrollTop : Z) (st : Result) : bool :=
  scrollTop + offsetHeight container (attached st)
    >=? scrollHeight container (attached st) - 16.

(** [while (stack_.length && has_room) (stack_.shift())()], by recursion
    on the content of [stack_]: closures do not touch [stack_], so after a
    [shift] it holds the tail. *)
Fixpoint eager_loop (s : list RenderUnit) : M unit :=
  match s with
  | [] => mret tt
  | u :: rest =>
      st ← get;
      if has_room st
      then modify (set_stack (Some rest));; render u;; eager_loop rest
      else mret tt
  end.

Definition eager_drain : M unit :=
  s ← read_stack; eager_loop s.

(** The scroll listener's loop
    [while (stack_.length && near_bottom) stack_.splice(0, 10).forEach(render => render())].
    Every turn taken removes at least one unit, so [fuel] above the queue
    length is never used up (see [scroll_loop_fuel]). *)
Fixpoint scroll_loop (fuel : nat) (scrollTop : Z) : M unit :=
  match fuel with
  | O => mret tt
  | S fuel' =>
      s ← read_stack;
      st ← get;
      if negb (length s =? 0)%nat && near_bottom scrollTop st
      then modify (set_stack (Some (drop 10 s)));;
           forEach render (take 10 s);;
           scroll_loop fuel' scrollTop
      else mret tt
  end.

Definition on_scroll (scrollTop : Z) : M unit :=
  s ← read_stack; scroll_loop (S (length s)) scrollTop.

(** The [msearch] completion callback
    [function (error, sections_response, status)], closed over the stage-1
    [result].  Binding the anchors' click handlers, which follows the
    eager loop, does not touch the instance. *)
Definition msearch_callback (result : list Hit) (r : Exn + MsearchResponse)
  : M unit :=
  match r with
  | inl error =>
      console_error ("Error during elastic msearch query: " +:+ exn_to_string error)
  | inr section_result =>
      aggregate result section_result;;
      eager_drain
  end.

(** One iteration of [result.forEach((hit) => ...)] in the stage-1
    callback: the index header and the section query pushed onto
    [msearch_body]. *)
Definition section_post_body (hit : Hit) : M (string * SectionQuery) :=
  st ← get;
  hl ← lift (read_highlight hit);
  let size := (from_option length 0 (hl_title hl) +
               from_option length 0 (hl_text hl))%nat in
  mret (es_index_name st,
        {| sq_size := size; sq_parent_id := _id hit; sq_query := value_ st |}).

(** The switch on [total_results] that sets the metadata text;
    [replace] converts the number it is given to a string. *)
Definition meta_text (m : Messages) (total_results : Z) : string :=
  if total_results =? 0 then none m
  else if total_results =? 1 then one m
  else Str.replace_hash (other m) (Double.to_string total_results).

(** The stage-1 completion callback [function(err, response)].  In the
    [err !== null] branch the argument of [console.error] reads [error],
    an identifier no enclosing scope binds. *)
Definition search_callback (r : Exn + SearchResponse) : M unit :=
  match r with
  | inl err => throw ReferenceError
  | inr response =>
      let result := hits response in
      let total_results := total response in
      modify (set_stack (Some []));;
      msearch_body ← mapM section_post_body result;
      (if (0 <? length msearch_body)%nat
       then dispatch (Msearch msearch_body result)
       else mret tt);;
      st ← get;
      modify (set_meta (meta_text (message_ st) total_results))
  end.

(** [performElasticSearchQuery] after its [await]: the callback runs
    inside the [try], so what it throws is caught and passed to it again
    as [err]. *)
Definition performElasticSearchQuery (r : Exn + SearchResponse) : M unit :=
  match r with
  | inr response =>
      try_catch (search_callback (inr response)) (λ err, search_callback (inl err))
  | inl err => search_callback (inl err)
  end.

Inductive EventType := focus | keyup | other_type.

(** An input event: its [type], and the [value] of its [target] when that
    is an [HTMLInputElement]. *)
Record Event := {
  type : EventType;
  target : option string
}.

Definition is_focus (t : EventType) : bool :=
  match t with focus => true | _ => false end.

Definition is_keyup (t : EventType) : bool :=
  match t with keyup => true | _ => false end.

(** [target.value === this.value_] *)
Definition same_value (value : string) (value_ : option string) : bool :=
  match value_ with
  | Some v => String.eqb value v
  | None => false
  end.

(** [update(ev)], up to the dispatch of the stage-1 request.  The first
    branch also creates the client and registers the scroll listener; the
    container is taken to be an [HTMLElement]. *)
Definition update (ev : Event) : M unit :=
  st ← get;
  if is_focus (type ev) && negb (initialized_ st) then
    modify (set_initialized true)
  else if is_focus (type ev) || is_keyup (type ev) then
    match target ev with
    | None => throw ReferenceError
    | Some value =>
        if negb (initialized_ st) || same_value value (value_ st) then mret tt
        else
          modify (set_list []);;
          modify (set_value (Some value));;
          if (String.length value =? 0)%nat then
            modify (set_meta (placeholder (message_ st)))
          else
            dispatch (Search (es_index_name st) (buildElasticSearchQuery value))
    end
  else mret tt.

(** What the browser and the search engine deliver to the instance: an
    input event, a scroll of the container, or the completion of the
    request in flight at position [k]. *)
Inductive Input :=
  | OnUpdate (ev : Event)
  | OnScroll (scrollTop : Z)
  | SearchDone (k : nat) (r : Exn + SearchResponse)
  | MsearchDone (k : nat) (r : Exn + MsearchResponse).

(** The handler an input runs.  The scroll listener exists once the
    instance is initialized; a completion is delivered to the callback of
    the request it answers, which thereby leaves [requests]. *)
Definition handler (i : Input) : M unit :=
  st ← get;
  match i with
  | OnUpdate ev => update ev
  | OnScroll scrollTop =>
      if initialized_ st then on_scroll scrollTop else mret tt
  | SearchDone k r =>
      match requests st !! k with
      | Some (Search _ _) =>
          modify (set_requests (delete k (requests st)));;
          performElasticSearchQuery r
      | _ => mret tt
      end
  | MsearchDone k r =>
      match requests st !! k with
      | Some (Msearch _ result) =>
          modify (set_requests (delete k (requests st)));;
          msearch_callback result r
      | _ => mret tt
      end
  end.

(** An exception that leaves a handler is not caught by anyone: the turn
    ends and the instance keeps the state reached. *)
Definition step (st : Result) (i : Input) : Result := snd (handler i st).

Definition run (st : Result) (inputs : list Input) : Result :=
  fold_left step inputs st.

End Drain.

(** The instance as the constructor leaves it: [stack_], [value_] and
    [initialized_] are not assigned. *)
Definition construct (base_url index_name : string) (m : Messages) : Result :=
  {| base_url_ := base_url; es_index_name := index_name; message_ := m;
     meta_ := placeholder m; list_ := []; nodes := []; stack_ := None;
     value_ := None; initialized_ := false; requests := []; console := [];
     painted := [] |}.

(* ------------------------------------------------------------------ *)
(** ** Vocabulary of the specification *)
(* ------------------------------------------------------------------ *)

(** [s[i] === " "] *)
Definition space_at (s : string) (i : nat) : Prop :=
  String.get i s = Some " "%char.

(** The budget rule as the specification words it: with no space at or
    before the budget, cut at the budget. *)
Definition truncates_at_budget (s : string) (n : nat) : Prop :=
  (n < String.length s)%nat →
  (∀ i, (i ≤ n)%nat → ¬ space_at s i) →
  truncate s n = String.substring 0 n s +:+ "...".

(** A [keyup] on the input while it holds [value]. *)
Definition keyup_of (value : string) : Event :=
  {| type := keyup; target := Some value |}.

(** The first highlighted text fragment of a section hit,
    [section_obj.highlight.text[0]]. *)
Definition fragment (s : Hit) : option string :=
  match highlight s with
  | Some hl => match hl_text hl with Some fs => head fs | None => None end
  | None => None
  end.

(** A section of the batch that qualifies for the teaser: its title equals
    the document title and its text was highlighted. *)
Definition carries_fragment (doc_title : string) (s : Hit) : bool :=
  String.eqb (title (_source s)) doc_title &&
  match highlight s with
  | Some hl => match hl_text hl with Some _ => true | None => false end
  | None => false
  end.


(** A hit as the queries make the engine return it: with a [highlight]
    object whose fragment arrays are not empty. *)
Definition highlighted (h : Hit) : Prop :=
  ∃ hl, highlight h = Some hl ∧ hl_title hl ≠ Some [] ∧ hl_text hl ≠ Some [].

(** The section query the stage-1 callback builds for [hit]. *)
Definition post_body_of (index : string) (value : option string) (hit : Hit)
  : string * SectionQuery :=
  (index,
   {| sq_size := match highlight hit with
                 | Some hl => from_option length 0%nat (hl_title hl) +
                              from_option length 0%nat (hl_text hl)
                 | None => 0
                 end;
      sq_parent_id := _id hit;
      sq_query := value |}).

(** A closure that runs to completion: a section closure needs the
    [highlight] of its hit. *)
Definition renderable (u : RenderUnit) : Prop :=
  match u with
  | DocumentUnit _ => True
  | SectionUnit _ hit => highlighted hit
  end.

(** The queue the aggregation is to produce, in the words of the
    specification: for each element of the batch response, in order, one
    document unit followed by that document's section units in response
    order.  [ref] is the reference given to the first article. *)
Fixpoint units_from (ref : nat) (section_result : MsearchResponse)
  : list RenderUnit :=
  match section_result with
  | [] => []
  | section_hit :: rest =>
      (DocumentUnit ref :: map (SectionUnit ref) section_hit)
        ++ units_from (S ref) rest
  end.



(** [st'] differs from [st] by the execution of [ex], in that order. *)
Definition paints (ex : list RenderUnit) (st st' : Result) : Prop :=
  painted st' = painted st ++ ex ∧ length (nodes st') = length (nodes st).


(** What the aggregation needs of a document hit and its batch element:
    the [highlight] of the document hit and of every section that shares
    its title. *)
Definition aggregable (hit : Hit) (section_hit : list Hit) : Prop :=
  is_Some (highlight hit) ∧
  ∀ s, s ∈ section_hit → title (_source s) = title (_source hit) →
       is_Some (highlight s).

(** The article element built for [hit] carries its title and link and has
    no section yet. *)
Definition article_for (base_url : string) (a : ArticleNode) (hit : Hit) : Prop :=
  art_title a = title (_source hit) ∧
  art_href a = base_url +:+ "/" +:+ location (_source hit) ∧
  art_sections a = [].

(** The batch rule as the specification words it: with twelve units
    pending, no visible room left and the position near the bottom, one
    scroll event paints the first ten units and leaves two. *)
Definition one_batch_per_scroll (container : Container) (st : Result)
    (scrollTop : Z) : Prop :=
  ∀ q, stack_ st = Some q → length q = 12%nat →
    has_room container st = false →
    near_bottom container scrollTop st = true →
    let st' := step container st (OnScroll scrollTop) in
    painted st' = painted st ++ take 10 q ∧ stack_ st' = Some (drop 10 q).

(** The units waiting in the queue. *)
Definition pending (st : Result) : list RenderUnit := default [] (stack_ st).

(** Units refer to articles that exist. *)
Definition refs_ok (st : Result) : Prop :=
  Forall (λ u, (unit_article u < length (nodes st))%nat) (pending st).

(** A unit that was pending in [st], or that belongs to an article built
    between [st] and [st']. *)
Definition known (st st' : Result) (u : RenderUnit) : Prop :=
  u ∈ pending st ∨ (length (nodes st) ≤ unit_article u < length (nodes st'))%nat.

(** [st'] comes after [st]: articles were only added, and the units painted
    in between, like those pending in [st'], are known. *)
Definition evolves (st st' : Result) : Prop :=
  (length (nodes st) ≤ length (nodes st'))%nat ∧
  (∃ ex, painted st' = painted st ++ ex ∧ Forall (known st st') ex) ∧
  Forall (known st st') (pending st').

(** Staleness as the specification words it: once the units of the newer
    search are installed in [st], the late completion [late] of a request
    of the older search and the scroll events [tops] after it execute no
    unit of the older search, that is, only units of articles that existed
    in [st]. *)
Definition stale_never_drained (container : Container) (st : Result)
    (late : Input) (tops : list Z) : Prop :=
  ∀ u, u ∈ drop (length (painted st))
             (painted (run container st (late :: map OnScroll tops))) →
       (unit_article u < length (nodes st))%nat.

(** The failure rule as the specification words it: a search cycle (the
    accepted keystroke and the failed completion of its stage-1 request)
    leaves the metadata text, the queue and the result list as they were
    before the cycle, so that earlier results remain visible. *)
Definition failure_keeps_results (container : Container) (st : Result)
    (value : string) (err : Exn) : Prop :=
  let st' := run container st
               [OnUpdate (keyup_of value);
                SearchDone (length (requests st)) (inl err)] in
  meta_ st' = meta_ st ∧ stack_ st' = stack_ st ∧ list_ st' = list_ st.

(* ------------------------------------------------------------------ *)
(** ** Sample data *)
(* ------------------------------------------------------------------ *)

Module Sample.

(** Rows of the result list: one per attached article and one per section
    appended to it. *)
Definition rows (l : list ArticleNode) : Z :=
  fold_right (λ a acc, 1 + Z.of_nat (length (art_sections a)) + acc) 0 l.

Definition messages : Messages :=
  {| placeholder := "Type to start searching";
     none := "No matching documents";
     one := "1 matching document";
     other := "# matching documents" |}.

(** A stage-1 hit whose title was highlighted. *)
Definition doc (id title_ : string) : Hit :=
  {| _id := id;
     _source := {| title := title_; location := id +:+ "/"; text := "" |};
     highlight := Some {| hl_title := Some ["<em>" +:+ title_ +:+ "</em>"];
                          hl_text := None |} |}.

(** A stage-2 hit whose text was highlighted with [frag]. *)
Definition sec (id title_ frag : string) : Hit :=
  {| _id := id;
     _source := {| title := title_; location := id; text := "plain text" |};
     highlight := Some {| hl_title := None; hl_text := Some [frag] |} |}.

(** A hit that carries no [highlight] at all. *)
Definition bare (id title_ : string) : Hit :=
  {| _id := id;
     _source := {| title := title_; location := id +:+ "/"; text := "" |};
     highlight := None |}.

Definition intro_doc : Hit := doc "intro" "Intro".

Definition intro_batch : list Hit :=
  [ sec "intro/#a" "Intro" "<em>one</em>"; sec "intro/#b" "Intro" "<em>two</em>" ].

Definition fresh : Result := construct "https://docs" "mkdocs" messages.

(** A container 400 units high whose content is 40 units per row. *)
Definition box : Container :=
  {| offsetHeight := λ _, 400;
     scrollHeight := λ l, Z.max 400 (40 * rows l) |}.

Definition focus_on (value : string) : Input :=
  OnUpdate {| type := focus; target := Some value |}.

Definition type_in (value : string) : Input := OnUpdate (keyup_of value).

(** The instance after the query ["a"] was answered with one document and
    one section, both painted. *)
Definition shown : Result :=
  run box fresh
    [ focus_on "";
      type_in "a";
      SearchDone 0 (inr {| hits := [doc "alpha" "Alpha"]; total := 1 |});
      MsearchDone 0 (inr [[sec "alpha/#usage" "Usage" "<em>a</em> flag"]]) ].

(** A container 400 units high that holds 1000 units of other content
    above result rows [h] units high. *)
Definition strip (h : Z) : Container :=
  {| offsetHeight := λ _, 400;
     scrollHeight := λ l, 1000 + h * rows l |}.

Definition page (i : nat) : Hit :=
  doc ("page-" +:+ pretty i) ("Page " +:+ pretty i).

(** Twelve document units pending in such a container, none painted: the
    query ["a"] was answered with twelve documents without sections. *)
Definition twelve : Result :=
  run (strip 1) fresh
    [ focus_on "";
      type_in "a";
      SearchDone 0 (inr {| hits := map page (seq 0 12); total := 12 |});
      MsearchDone 0 (inr (replicate 12 [])) ].

(** Two overlapping searches: the stage-1 response for ["a"] arrives, the
    user types ["ab"], whose two responses arrive and install its units
    while the stage-2 request of ["a"] is still in flight. *)
Definition overlap : list Input :=
  [ focus_on "";
    type_in "a";
    SearchDone 0 (inr {| hits := [doc "alpha" "Alpha"]; total := 1 |});
    type_in "ab";
    SearchDone 1 (inr {| hits := [doc "beta" "Beta"]; total := 1 |});
    MsearchDone 1 (inr [[sec "beta/#setup" "Setup" "<em>ab</em> option"]]) ].

Definition newer_installed : Result := run box fresh overlap.

(** The stage-2 response of the older search ["a"]. *)
Definition late : Input :=
  MsearchDone 0 (inr [[sec "alpha/#usage" "Usage" "<em>a</em> flag"]]).

(** The twelve units of ["a"] are pending when ["ab"] is typed. *)
Definition requery : list Input :=
  [ focus_on "";
    type_in "a";
    SearchDone 0 (inr {| hits := map page (seq 0 12); total := 12 |});
    MsearchDone 0 (inr (replicate 12 []));
    type_in "ab" ].




End Sample.

(* ------------------------------------------------------------------ *)
(** ** The rest of the file: helpers and constructor *)
(* ------------------------------------------------------------------ *)

(** The character class of [escapeRegex],
    [/[|\\{}()[\]^$+*?.-]/]. *)
Definition regex_special (c : ascii) : bool :=
  existsb (Ascii.eqb c)
    [ "|"; "\"; "{"; "}"; "("; ")"; "["; "]"; "^"; "$"; "+"; "*"; "?"; ".";
      "-" ]%char.

(** [escapeRegex(regex)]: [regex.replace(/[...]/g, '\\$&')] puts a
    backslash before every character of the class. *)
Fixpoint escapeRegex (regex : string) : string :=
  match regex with
  | EmptyString => EmptyString
  | String c rest =>
      if regex_special c
      then String "\" (String c (escapeRegex rest))
      else String c (escapeRegex rest)
  end.

(** The number of characters of the class in a string. *)
Fixpoint count_special (s : string) : nat :=
  match s with
  | EmptyString => 0
  | String c rest => ((if regex_special c then 1 else 0) + count_special rest)%nat
  end.

(** What [document.getElementsByName] can find: a [<meta>] element with its
    [content], or an element of another kind. *)
Inductive Element :=
  | MetaElement (content : string)
  | OtherElement.

(** The named elements of the document, in document order. *)
Definition Document := list (string * Element).

(** [translate(key)]: the first element named [lang:key] must be a
    [<meta>] element. *)
Definition translate (document : Document) (key : string) : Outcome string :=
  match List.find (λ e, String.eqb (fst e) ("lang:" +:+ key)) document with
  | Some (_, MetaElement content) => Ok content
  | _ => Throw ReferenceError
  end.

Module Lang.

(** [s.split(",")] *)
Fixpoint split (s : string) : list string :=
  match s with
  | EmptyString => [EmptyString]
  | String c rest =>
      if Ascii.eqb c ","
      then EmptyString :: split rest
      else match split rest with
           | piece :: pieces => String c piece :: pieces
           | [] => [String c EmptyString]
           end
  end.

(** [pieces.join(",")] *)
Fixpoint join (pieces : list string) : string :=
  match pieces with
  | [] => EmptyString
  | [piece] => piece
  | piece :: rest => piece +:+ "," +:+ join rest
  end.

(** [Boolean(s)] on a string: the empty string is falsy. *)
Definition truthy (s : string) : bool :=
  match s with
  | EmptyString => false
  | String _ _ => true
  end.

(** White space and line terminators among the code units below 256:
    TAB, LF, VT, FF, CR, SP and NBSP. *)
Definition is_white (c : ascii) : bool :=
  existsb (N.eqb (N_of_ascii c)) [9; 10; 11; 12; 13; 32; 160]%N.

Fixpoint trim_start (s : string) : string :=
  match s with
  | EmptyString => EmptyString
  | String c rest => if is_white c then trim_start rest else s
  end.

Fixpoint trim_end (s : string) : string :=
  match s with
  | EmptyString => EmptyString
  | String c rest =>
      match trim_end rest with
      | EmptyString => if is_white c then EmptyString else String c EmptyString
      | t => String c t
      end
  end.

(** [s.trim()] *)
Definition trim (s : string) : string := trim_end (trim_start s).

(** [value.split(",").filter(Boolean).map(lang => lang.trim())] *)
Definition parse (value : string) : list string :=
  map trim (List.filter truthy (split value)).

(** A string with no white space at either end. *)
Definition trimmed (s : string) : Prop :=
  match s with
  | EmptyString => True
  | String c _ => is_white c = false
  end ∧
  trim_end s = s.

(** A string without a comma. *)
Fixpoint comma_free (s : string) : Prop :=
  match s with
  | EmptyString => True
  | String c rest => c ≠ ","%char ∧ comma_free rest
  end.

(** A string made of white space only. *)
Fixpoint blank (s : string) : bool :=
  match s with
  | EmptyString => true
  | String c rest => is_white c && blank rest
  end.

End Lang.

(** What the constructor keeps besides the instance: the tokenizer
    separator it installs when the configured one is not empty, and
    [lang_]. *)
Record Settings := {
  separator : option string;
  lang_ : list string
}.

(** [new Result(el, base_url, es)].  [el] is [None] when the selector or
    element does not resolve to an [HTMLElement], else the [textContent] of
    its first child, if it has one. *)
Definition new_Result (el : option (option string)) (base_url index_name : string)
    (document : Document) : Outcome (Result * Settings) :=
  match el with
  | None => Throw ReferenceError
  | Some None => Throw TypeError
  | Some (Some textContent) =>
      match translate document "search.result.none" with
      | Throw e => Throw e
      | Ok none_ =>
      match translate document "search.result.one" with
      | Throw e => Throw e
      | Ok one_ =>
      match translate document "search.result.other" with
      | Throw e => Throw e
      | Ok other_ =>
      match translate document "search.tokenizer" with
      | Throw e => Throw e
      | Ok tokenizer =>
      match translate document "search.language" with
      | Throw e => Throw e
      | Ok language =>
          Ok (construct base_url index_name
                {| placeholder := textContent; none := none_; one := one_;
                   other := other_ |},
              {| separator := if (String.length tokenizer =? 0)%nat
                              then None else Some tokenizer;
                 lang_ := Lang.parse language |})
      end end end end end
  end.

(** The five keys the constructor translates. *)
Definition translated_keys : list string :=
  [ "search.result.none"; "search.result.one"; "search.result.other";
    "search.tokenizer"; "search.language" ].

(* ------------------------------------------------------------------ *)
(** ** Further vocabulary *)
(* ------------------------------------------------------------------ *)

(** [st'] differs from [st] at most in the result list, the articles, the
    queue and the history: no request left, and neither the metadata text,
    the stored value, the console nor the configuration changed. *)
Definition quiet (st st' : Result) : Prop :=
  base_url_ st' = base_url_ st ∧ es_index_name st' = es_index_name st ∧
  message_ st' = message_ st ∧ meta_ st' = meta_ st ∧
  value_ st' = value_ st ∧ initialized_ st' = initialized_ st ∧
  requests st' = requests st ∧ console st' = console st.

(** The configuration is the same and initialization is not undone. *)
Definition configured (st st' : Result) : Prop :=
  base_url_ st' = base_url_ st ∧ es_index_name st' = es_index_name st ∧
  message_ st' = message_ st ∧
  (initialized_ st = true → initialized_ st' = true).



(** The first fragment of the highlighted text when there is one, else the
    plain text: what a section closure hands to [truncate]. *)
Definition section_text (hit : Hit) (hl : Highlight) : option string :=
  first_or (hl_text hl) (text (_source hit)).

(** A string without [#]. *)
Fixpoint hash_free (s : string) : Prop :=
  match s with
  | EmptyString => True
  | String c rest => c ≠ "#"%char ∧ hash_free rest
  end.

Module Page.

(** The [<meta>] elements of a page in English and German. *)
Definition document : Document :=
  [ ("lang:search.language", MetaElement "en, de");
    ("lang:search.result.none", MetaElement "No matching documents");
    ("lang:search.result.one", MetaElement "1 matching document");
    ("lang:search.result.other", MetaElement "# matching documents");
    ("lang:search.tokenizer", MetaElement "") ].

End Page.

(* ------------------------------------------------------------------ *)
(** * Properties *)
(* ------------------------------------------------------------------ *)

(** ** [truncate] *)

Lemma is_space_true c : Str.is_space c = true ↔ c = Some " "%char.
Proof.
  destruct c as [c|]; simpl.
  - rewrite Ascii.eqb_eq. split; [intros -> | intros [= ->]]; reflexivity.
  - split; discriminate.
Qed.

Lemma is_space_false s i : ¬ space_at s i → Str.is_space (String.get i s) = false.
Proof.
  intros H. destruct (Str.is_space (String.get i s)) eqn:E; [|reflexivity].
  apply is_space_true in E. contradiction.
Qed.

Lemma scan_nearest s n j :
  (j ≤ n)%nat → space_at s j →
  (∀ k, (j < k ≤ n)%nat → ¬ space_at s k) →
  truncate_scan s n = Z.of_nat j.
Proof.
  induction n as [|m IH]; intros Hle Hj Hgap.
  - assert (j = 0%nat) as -> by lia.
    simpl. apply is_space_true in Hj. rewrite Hj. reflexivity.
  - destruct (decide (j = S m)) as [->|Hne].
    + cbn [truncate_scan]. apply is_space_true in Hj. rewrite Hj. reflexivity.
    + cbn [truncate_scan]. rewrite is_space_false by (apply Hgap; lia).
      destruct (0 <? Z.of_nat m) eqn:Hm.
      * apply IH; [lia | assumption | intros k Hk; apply Hgap; lia].
      * apply Z.ltb_ge in Hm. f_equal. lia.
Qed.

Lemma scan_none s n :
  (∀ k, (1 ≤ k ≤ n)%nat → ¬ space_at s k) → truncate_scan s n ≤ 0.
Proof.
  induction n as [|m IH]; intros Hgap.
  - simpl. destruct (Str.is_space _); lia.
  - cbn [truncate_scan]. rewrite is_space_false by (apply Hgap; lia).
    destruct (0 <? Z.of_nat m) eqn:Hm.
    + apply IH. intros k Hk. apply Hgap. lia.
    + apply Z.ltb_ge in Hm. lia.
Qed.

Lemma substring_prefix s j :
  (j ≤ String.length s)%nat → Str.substring s 0 (Z.of_nat j) = String.substring 0 j s.
Proof.
  intros H. unfold Str.substring.
  replace (Z.min (Z.max 0 0) _) with 0 by lia.
  replace (Z.min (Z.max (Z.of_nat j) 0) _) with (Z.of_nat j) by lia.
  replace (Z.min 0 (Z.of_nat j)) with 0 by lia.
  replace (Z.max 0 (Z.of_nat j) - 0) with (Z.of_nat j) by lia.
  rewrite Nat2Z.id. reflexivity.
Qed.

Lemma substring_nonpos s b : b ≤ 0 → Str.substring s 0 b = "".
Proof.
  intros H. unfold Str.substring.
  replace (Z.min (Z.max 0 0) _) with 0 by lia.
  replace (Z.min (Z.max b 0) _) with 0 by lia.
  simpl. destruct s; reflexivity.
Qed.

Lemma truncate_short s n : (String.length s ≤ n)%nat → truncate s n = s.
Proof.
  intros H. unfold truncate.
  destruct (Z.of_nat (String.length s) >? Z.of_nat n) eqn:E; [|reflexivity].
  apply Z.gtb_lt in E. lia.
Qed.

Lemma truncate_long s n :
  (n < String.length s)%nat →
  truncate s n = Str.substring s 0 (truncate_scan s n) +:+ "...".
Proof.
  intros H. unfold truncate.
  destruct (Z.of_nat (String.length s) >? Z.of_nat n) eqn:E; [reflexivity|].
  rewrite Z.gtb_ltb in E. apply Z.ltb_ge in E. lia.
Qed.

(** With no space among the indices [1 .. n] the scan runs down to the
    start of the string and nothing but the ellipsis is left. *)
Lemma truncate_no_inner_space s n :
  (n < String.length s)%nat →
  (∀ k, (1 ≤ k ≤ n)%nat → ¬ space_at s k) →
  truncate s n = "...".
Proof.
  intros Hlen Hgap. rewrite truncate_long by assumption.
  rewrite substring_nonpos by (apply scan_none; assumption). reflexivity.
Qed.

(** C6 (as stated): at [s = "abcdefghij"], [n = 5] there is no space at all,
    yet the result is not the five-character prefix with the ellipsis. *)
Lemma truncate_budget_counterexample : ¬ truncates_at_budget "abcdefghij" 5.
Proof.
  unfold truncates_at_budget. intros H.
  assert (truncate "abcdefghij" 5 = "abcde...") as E.
  { apply H; [simpl; lia|].
    intros i Hi. unfold space_at.
    do 6 (destruct i as [|i]; [discriminate|]). lia. }
  vm_compute in E. discriminate E.
Qed.

(** C6 (amended): for a string longer than the budget [n] with no space at
    any index at or before [n], [truncate] returns the ellipsis alone. *)
Theorem truncate_without_space s n :
  (n < String.length s)%nat →
  (∀ i, (i ≤ n)%nat → ¬ space_at s i) →
  truncate s n = "...".
Proof.
  intros Hlen Hgap. apply truncate_no_inner_space; [assumption|].
  intros k Hk. apply Hgap. lia.
Qed.

Lemma truncate_without_space_witness : truncate "abcdefghij" 5 = "...".
Proof.
  apply truncate_without_space; [simpl; lia|].
  intros i Hi. unfold space_at.
  do 6 (destruct i as [|i]; [discriminate|]). lia.
Defined.

(** C7: [truncate] returns a string within the budget unchanged; a longer
    string with a space at or before index [n] is cut just before the
    nearest such space (the one with the largest index not above [n]) and
    suffixed with ["..."]; the two worked examples. *)
Theorem truncate_nearest_space s n :
  ((String.length s ≤ n)%nat → truncate s n = s) ∧
  (∀ j, (n < String.length s)%nat → (j ≤ n)%nat → space_at s j →
        (∀ k, (j < k ≤ n)%nat → ¬ space_at s k) →
        truncate s n = String.substring 0 j s +:+ "...") ∧
  truncate "abcdefgh ijkl" 8 = "abcdefgh..." ∧
  truncate "short" 10 = "short".
Proof.
  split; [apply truncate_short|]. split; [|split; reflexivity].
  intros j Hlen Hj Hsp Hgap.
  rewrite truncate_long by assumption.
  rewrite (scan_nearest s n j) by assumption.
  rewrite substring_prefix by lia. reflexivity.
Qed.

Lemma truncate_nearest_space_witness :
  truncate "short" 10 = "short" ∧ truncate "ab cd efghij" 7 = "ab cd...".
Proof.
  destruct (truncate_nearest_space "short" 10) as [Hshort _].
  destruct (truncate_nearest_space "ab cd efghij" 7) as (_ & Hcut & _).
  split.
  - apply Hshort. simpl. lia.
  - apply (Hcut 5%nat); [simpl; lia | lia | reflexivity |].
    intros k Hk. unfold space_at.
    do 6 (destruct k as [|k]; [lia|]).
    do 2 (destruct k as [|k]; [discriminate|]). lia.
Defined.

(** ** The monad *)

Ltac msimpl :=
  repeat (progress (unfold mbind, M_bind, mret, M_ret, get, modify, throw, lift,
                      dispatch, console_error, read_stack; simpl)).

Lemma bind_ok {A B} (m : M A) (k : A → M B) st a st' :
  m st = (Ok a, st') → (m ≫= k) st = k a st'.
Proof. intros H. unfold mbind, M_bind. rewrite H. reflexivity. Qed.

Lemma bind_throw {A B} (m : M A) (k : A → M B) st e st' :
  m st = (Throw e, st') → (m ≫= k) st = (Throw e, st').
Proof. intros H. unfold mbind, M_bind. rewrite H. reflexivity. Qed.

(** ** Teaser selection *)

Lemma carries_fragment_spec t s :
  carries_fragment t s = true ↔
  title (_source s) = t ∧ ∃ hl fs, highlight s = Some hl ∧ hl_text hl = Some fs.
Proof.
  unfold carries_fragment. rewrite andb_true_iff, String.eqb_eq.
  split; intros [Ht H]; (split; [assumption|]).
  - destruct (highlight s) as [hl|]; [|discriminate].
    destruct (hl_text hl) as [fs|] eqn:E; [|discriminate]. exists hl, fs. auto.
  - destruct H as (hl & fs & -> & ->). reflexivity.
Qed.

Lemma teaser_loop_last t batch acc :
  (∀ s, s ∈ batch → title (_source s) = t → is_Some (highlight s)) →
  teaser_loop t batch acc =
    Ok (match last (List.filter (carries_fragment t) batch) with
        | Some s => fragment s
        | None => acc
        end).
Proof.
  revert acc. induction batch as [|s rest IH]; intros acc Hhl; [reflexivity|].
  assert (∀ s', s' ∈ rest → title (_source s') = t → is_Some (highlight s')) as Hrest.
  { intros s' Hin. apply Hhl. right. assumption. }
  cbn [teaser_loop List.filter]. unfold carries_fragment at 1.
  destruct (String.eqb (title (_source s)) t) eqn:Et; simpl.
  - apply String.eqb_eq in Et.
    destruct (Hhl s (list_elem_of_here _ _) Et) as [hl Hs].
    unfold read_highlight. rewrite Hs.
    destruct (hl_text hl) as [fs|] eqn:Efs.
    + rewrite IH by assumption. rewrite last_cons.
      destruct (last _); [reflexivity|].
      unfold fragment. rewrite Hs, Efs. reflexivity.
    + apply IH. assumption.
  - apply IH. assumption.
Qed.




(** ** Stage-1 completion *)

Lemma section_post_body_ok hit hl st :
  highlight hit = Some hl →
  section_post_body hit st = (Ok (post_body_of (es_index_name st) (value_ st) hit), st).
Proof.
  intros H. unfold section_post_body, post_body_of, read_highlight. msimpl.
  rewrite H. reflexivity.
Qed.

Lemma section_post_body_throw hit st :
  highlight hit = None → section_post_body hit st = (Throw TypeError, st).
Proof.
  intros H. unfold section_post_body, read_highlight. msimpl. rewrite H. reflexivity.
Qed.

Lemma msearch_body_ok result st :
  Forall (λ hit, is_Some (highlight hit)) result →
  mapM section_post_body result st =
    (Ok (map (post_body_of (es_index_name st) (value_ st)) result), st).
Proof.
  induction 1 as [|hit result [hl Hhl] _ IH]; [reflexivity|].
  cbn [mapM map].
  rewrite (bind_ok _ _ _ _ _ (section_post_body_ok _ _ _ Hhl)).
  rewrite (bind_ok _ _ _ _ _ IH). reflexivity.
Qed.

Lemma msearch_body_throw result hit st :
  hit ∈ result → highlight hit = None →
  mapM section_post_body result st = (Throw TypeError, st).
Proof.
  intros Hin Hnone. induction result as [|h result IH]; [inversion Hin|].
  cbn [mapM]. destruct (highlight h) as [hl|] eqn:Hh.
  - rewrite (bind_ok _ _ _ _ _ (section_post_body_ok _ _ _ Hh)).
    apply elem_of_cons in Hin as [-> | Hin]; [congruence|].
    rewrite (bind_throw _ _ _ _ _ (IH Hin)). reflexivity.
  - rewrite (bind_throw _ _ _ _ _ (section_post_body_throw _ _ Hh)). reflexivity.
Qed.

Lemma search_callback_ok response st :
  Forall (λ hit, is_Some (highlight hit)) (hits response) →
  search_callback (inr response) st =
    (Ok tt,
     set_meta (meta_text (message_ st) (total response))
       (match hits response with
        | [] => set_stack (Some []) st
        | _ :: _ =>
            set_requests
              (requests st ++
                 [Msearch (map (post_body_of (es_index_name st) (value_ st)) (hits response))
                          (hits response)])
              (set_stack (Some []) st)
        end)).
Proof.
  intros H. unfold search_callback.
  rewrite (bind_ok _ _ st tt (set_stack (Some []) st)) by reflexivity.
  rewrite (bind_ok _ _ _ _ _ (msearch_body_ok _ _ H)).
  destruct (hits response); reflexivity.
Qed.

Lemma search_callback_throw response hit st :
  hit ∈ hits response → highlight hit = None →
  search_callback (inr response) st = (Throw TypeError, set_stack (Some []) st).
Proof.
  intros Hin Hnone. unfold search_callback.
  rewrite (bind_ok _ _ st tt (set_stack (Some []) st)) by reflexivity.
  rewrite (bind_throw _ _ _ _ _ (msearch_body_throw _ _ _ Hin Hnone)). reflexivity.
Qed.

Lemma search_callback_error err st :
  search_callback (inl err) st = (Throw ReferenceError, st).
Proof. reflexivity. Qed.

(** C8: a stage-1 response with zero hits leaves an empty queue and
    issues no [msearch] request (the answered request is the only change
    to the requests in flight); a document hit whose batch element has no
    section still pushes its document unit. *)
Theorem no_hits_no_batch container st total_results k index body result i hit s :
  (requests st !! k = Some (Search index body) →
   let st' := step container st (SearchDone k (inr {| hits := []; total := total_results |})) in
   stack_ st' = Some [] ∧ requests st' = delete k (requests st)) ∧
  (result !! i = Some hit → is_Some (highlight hit) → stack_ st = Some s →
   ∃ st', aggregate_one result i [] st = (Ok tt, st') ∧
          stack_ st' = Some (s ++ [DocumentUnit (length (nodes st))])).
Proof.
  split.
  - intros Hk. unfold step, handler. msimpl. rewrite Hk. simpl. auto.
  - intros Hhit [hl Hhl] Hs. unfold aggregate_one. msimpl.
    rewrite Hhit. unfold article_node, read_highlight. rewrite Hhl. msimpl.
    rewrite Hs. eexists. split; reflexivity.
Qed.

Lemma no_hits_no_batch_witness :
  let st := step Sample.box Sample.fresh (OnUpdate {| type := focus; target := Some "" |}) in
  let st := step Sample.box st (OnUpdate (keyup_of "zzz")) in
  let st' := step Sample.box st (SearchDone 0 (inr {| hits := []; total := 0 |})) in
  (stack_ st' = Some [] ∧ requests st' = []) ∧
  ∃ st'', aggregate_one [Sample.intro_doc] 0 [] st' = (Ok tt, st'') ∧
          stack_ st'' = Some [DocumentUnit 0].
Proof.
  intros st0 st st'.
  destruct (no_hits_no_batch Sample.box st 0 0 "mkdocs" (buildElasticSearchQuery "zzz")
              [Sample.intro_doc] 0 Sample.intro_doc []) as [H1 _].
  destruct (no_hits_no_batch Sample.box st' 0 0 "mkdocs" (buildElasticSearchQuery "zzz")
              [Sample.intro_doc] 0 Sample.intro_doc []) as [_ H2].
  split.
  - apply H1. reflexivity.
  - apply H2; [reflexivity | eexists; reflexivity | reflexivity].
Defined.

(** C10: a stage-1 hit with no [highlight] makes the stage-1 callback
    throw a [TypeError] while it computes the size hint, before any
    [msearch] is issued and before the metadata is set, and building the
    article for such a hit throws as well; the fallback to the plain title
    exists only for a hit whose [highlight] is present without a [title]
    field. *)
Theorem missing_highlight_throws st response hit base_url section_hit :
  hit ∈ hits response → highlight hit = None →
  (∃ st', search_callback (inr response) st = (Throw TypeError, st') ∧
          requests st' = requests st ∧ meta_ st' = meta_ st) ∧
  article_node base_url hit section_hit = Throw TypeError ∧
  (∀ h hl, highlight h = Some hl → hl_title hl = None →
     section_post_body h st =
       (Ok (es_index_name st,
            {| sq_size := from_option length 0%nat (hl_text hl);
               sq_parent_id := _id h; sq_query := value_ st |}), st) ∧
     ∃ a, article_node base_url h [] = Ok a ∧
          art_title_html a = Some (title (_source h))).
Proof.
  intros Hin Hnone. split; [|split].
  - rewrite (search_callback_throw _ _ _ Hin Hnone). eexists. split; [reflexivity|]. auto.
  - unfold article_node, read_highlight. rewrite Hnone. reflexivity.
  - intros h hl Hh Ht. split.
    + rewrite (section_post_body_ok _ _ _ Hh). unfold post_body_of. rewrite Hh, Ht. reflexivity.
    + unfold article_node, read_highlight. rewrite Hh, Ht. simpl. eexists. split; reflexivity.
Qed.

Lemma missing_highlight_throws_witness :
  ∃ st',
    search_callback
      (inr {| hits := [Sample.intro_doc; Sample.bare "faq" "FAQ"]; total := 2 |})
      Sample.fresh
    = (Throw TypeError, st').
Proof.
  destruct (missing_highlight_throws Sample.fresh
              {| hits := [Sample.intro_doc; Sample.bare "faq" "FAQ"]; total := 2 |}
              (Sample.bare "faq" "FAQ") "https://docs" []) as [(st' & H & _) _].
  - simpl. right. left.
  - reflexivity.
  - exists st'. exact H.
Defined.

(** ** Input controller *)

Lemma same_value_refl value : same_value value (Some value) = true.
Proof. simpl. apply String.eqb_refl. Qed.

Lemma same_value_true value v : same_value value v = true ↔ v = Some value.
Proof.
  destruct v as [v|]; simpl; [|split; discriminate].
  rewrite String.eqb_eq. split; [intros -> | intros [= ->]]; reflexivity.
Qed.

Lemma update_unchanged ev value st :
  initialized_ st = true →
  type ev = focus ∨ type ev = keyup →
  target ev = Some value →
  value_ st = Some value →
  update ev st = (Ok tt, st).
Proof.
  intros Hinit Hty Htg Hval. unfold update. msimpl.
  rewrite Hinit, Htg, Hval, same_value_refl.
  destruct Hty as [-> | ->]; reflexivity.
Qed.

Lemma update_accept ev value st :
  initialized_ st = true →
  type ev = focus ∨ type ev = keyup →
  target ev = Some value →
  value_ st ≠ Some value →
  update ev st =
    (Ok tt,
     if (String.length value =? 0)%nat
     then set_meta (placeholder (message_ st)) (set_value (Some value) (set_list [] st))
     else set_requests
            (requests st ++ [Search (es_index_name st) (buildElasticSearchQuery value)])
            (set_value (Some value) (set_list [] st))).
Proof.
  intros Hinit Hty Htg Hval. unfold update. msimpl.
  rewrite Hinit, Htg.
  destruct (same_value value (value_ st)) eqn:E.
  { apply same_value_true in E. contradiction. }
  destruct Hty as [-> | ->]; simpl; destruct (String.length value =? 0)%nat; reflexivity.
Qed.

Lemma step_update container st ev : step container st (OnUpdate ev) = snd (update ev st).
Proof. reflexivity. Qed.

(** C9: once initialized, a [keyup] or [focus] whose text equals the last
    accepted value changes nothing and dispatches nothing; hence the second
    of two consecutive [keyup] events with the same text is a no-op, and
    the pair dispatches exactly the one query of the first event when the
    text is a new, non-empty query. *)
Theorem repeated_input_is_noop container ev value st :
  initialized_ st = true →
  type ev = focus ∨ type ev = keyup →
  target ev = Some value →
  (value_ st = Some value → update ev st = (Ok tt, st)) ∧
  run container st [OnUpdate (keyup_of value); OnUpdate (keyup_of value)]
    = step container st (OnUpdate (keyup_of value)) ∧
  (value ≠ "" → value_ st ≠ Some value →
   requests (run container st [OnUpdate (keyup_of value); OnUpdate (keyup_of value)])
     = requests st ++ [Search (es_index_name st) (buildElasticSearchQuery value)]).
Proof.
  intros Hinit Hty Htg.
  assert (value_ (snd (update (keyup_of value) st)) = Some value
          ∧ initialized_ (snd (update (keyup_of value) st)) = true) as [Hv Hi].
  { destruct (decide (value_ st = Some value)) as [E|E].
    - rewrite (update_unchanged _ value) by (simpl; auto). simpl. auto.
    - rewrite (update_accept _ value) by (simpl; auto). simpl.
      destruct (String.length value =? 0)%nat; simpl; auto. }
  assert (run container st [OnUpdate (keyup_of value); OnUpdate (keyup_of value)]
          = step container st (OnUpdate (keyup_of value))) as Hrun.
  { cbn [run fold_left]. rewrite !step_update.
    rewrite (update_unchanged _ value) by (simpl; auto). reflexivity. }
  split; [|split].
  - intros Hval. apply (update_unchanged ev value); assumption.
  - exact Hrun.
  - intros Hne Hnew. rewrite Hrun, step_update.
    rewrite (update_accept _ value) by (simpl; auto). simpl.
    destruct value; [contradiction|]. reflexivity.
Qed.

Lemma repeated_input_is_noop_witness :
  run Sample.box Sample.shown [Sample.type_in "ab"; Sample.type_in "ab"]
    = step Sample.box Sample.shown (Sample.type_in "ab") ∧
  requests (run Sample.box Sample.shown [Sample.type_in "ab"; Sample.type_in "ab"])
    = [Search "mkdocs" (buildElasticSearchQuery "ab")].
Proof.
  destruct (repeated_input_is_noop Sample.box (keyup_of "ab") "ab" Sample.shown)
    as (_ & Hsame & Hone).
  - reflexivity.
  - right. reflexivity.
  - reflexivity.
  - split; [exact Hsame|]. apply Hone; discriminate.
Defined.

(** ** Failure of the stage-1 query *)

(** C4 (as stated): with the results for ["a"] on screen, the keystroke
    ["ab"] whose query fails leaves an empty list. *)
Lemma failure_keeps_results_counterexample :
  ¬ failure_keeps_results Sample.box Sample.shown "ab" (Error "no living connections").
Proof.
  unfold failure_keeps_results. intros (_ & _ & H). vm_compute in H. discriminate H.
Qed.

(** C4 (amended): the failed completion of the stage-1 query leaves the
    metadata text, the queue, the result list and the history of painted
    units exactly as they were when it arrived; over the whole cycle the
    metadata text and the queue are unchanged, while the result list is
    empty, having been cleared when the keystroke was accepted. *)
Theorem failure_leaves_state container st value err :
  (let st' := snd (performElasticSearchQuery (inl err) st) in
   meta_ st' = meta_ st ∧ stack_ st' = stack_ st ∧ list_ st' = list_ st ∧
   painted st' = painted st) ∧
  (initialized_ st = true → value ≠ "" → value_ st ≠ Some value →
   let st' := run container st
                [OnUpdate (keyup_of value);
                 SearchDone (length (requests st)) (inl err)] in
   meta_ st' = meta_ st ∧ stack_ st' = stack_ st ∧ painted st' = painted st ∧
   list_ st' = []).
Proof.
  split; [simpl; auto|].
  intros Hinit Hne Hnew. cbn [run fold_left]. rewrite step_update.
  rewrite (update_accept _ value) by (simpl; auto).
  destruct value as [|c value]; [contradiction|]. simpl.
  unfold step, handler. msimpl.
  rewrite list_lookup_middle by reflexivity. simpl. auto.
Qed.

Lemma failure_leaves_state_witness :
  let st' := run Sample.box Sample.shown
               [Sample.type_in "ab"; SearchDone 0 (inl (Error "no living connections"))] in
  meta_ st' = "1 matching document" ∧ list_ st' = [].
Proof.
  destruct (failure_leaves_state Sample.box Sample.shown "ab"
              (Error "no living connections")) as [_ H].
  destruct H as (Hm & _ & _ & Hl); [reflexivity | discriminate | discriminate |].
  split; [exact Hm | exact Hl].
Defined.

(** ** Render closures *)

Lemma paints_refl st : paints [] st st.
Proof. split; [symmetry; apply app_nil_r | reflexivity]. Qed.

Lemma paints_trans ex1 ex2 st1 st2 st3 :
  paints ex1 st1 st2 → paints ex2 st2 st3 → paints (ex1 ++ ex2) st1 st3.
Proof.
  intros [Hp1 Hn1] [Hp2 Hn2]. split; [|congruence].
  rewrite Hp2, Hp1. symmetry. apply app_assoc.
Qed.

Lemma paints_set_stack v st : paints [] st (set_stack v st).
Proof. split; [symmetry; apply app_nil_r | reflexivity]. Qed.

Lemma section_node_ok base_url hit :
  highlighted hit → ∃ n, section_node base_url hit = Ok n.
Proof.
  intros (hl & Hhl & _ & Htext). unfold section_node, read_highlight. rewrite Hhl.
  destruct (hl_text hl) as [[|f fs]|]; simpl; [congruence | eauto | eauto].
Qed.

(** What running a closure does: it either completes, and is recorded, or
    throws and leaves the instance as it was; [stack_] is not touched. *)
Lemma render_cases u st :
  (∃ st', render u st = (Ok tt, st') ∧ paints [u] st st' ∧ stack_ st' = stack_ st) ∨
  (∃ e, render u st = (Throw e, st)).
Proof.
  destruct u as [a|a hit]; simpl.
  - left. eexists. split; [reflexivity|]. split; [split|]; reflexivity.
  - msimpl. destruct (section_node (base_url_ st) hit) as [n|e].
    + left. eexists. split; [reflexivity|]. split; [split|]; simpl; try reflexivity.
      apply length_alter.
    + right. eexists. reflexivity.
Qed.

Lemma render_ok u st :
  renderable u →
  ∃ st', render u st = (Ok tt, st') ∧ paints [u] st st' ∧ stack_ st' = stack_ st.
Proof.
  intros Hu. destruct (render_cases u st) as [H|[e He]]; [exact H|].
  destruct u as [a|a hit]; [discriminate He|].
  destruct (section_node_ok (base_url_ st) hit Hu) as [n Hn].
  revert He. simpl. msimpl. rewrite Hn. discriminate.
Qed.

Lemma render_throw u st e st' :
  render u st = (Throw e, st') → ¬ renderable u ∧ st' = st.
Proof.
  intros H. split.
  - intros Hu. destruct (render_ok u st Hu) as (st1 & Hr & _). congruence.
  - destruct (render_cases u st) as [(st1 & Hr & _)|[e' He]]; congruence.
Qed.

(** A batch handed to [forEach]: the closures run in order up to the first
    that throws. *)
Lemma forEach_render_cases batch st :
  (∃ st', forEach render batch st = (Ok tt, st') ∧ paints batch st st' ∧
          stack_ st' = stack_ st) ∨
  (∃ e ex u tl st',
      forEach render batch st = (Throw e, st') ∧ batch = ex ++ u :: tl ∧
      ¬ renderable u ∧ paints ex st st' ∧ stack_ st' = stack_ st).
Proof.
  revert st. induction batch as [|u batch IH]; intros st.
  - left. exists st. split; [reflexivity|]. split; [apply paints_refl | reflexivity].
  - cbn [forEach]. destruct (render u st) as [[[]|e] st1] eqn:Hr.
    + destruct (render_cases u st) as [(st1' & Hr' & Hp & Hs)|[e He]]; [|congruence].
      assert (st1' = st1) as -> by congruence.
      rewrite (bind_ok _ _ _ _ _ Hr).
      destruct (IH st1) as [(st' & Hf & Hp' & Hs')|(e & ex & v & tl & st' & Hf & Hb & Hv & Hp' & Hs')].
      * left. exists st'. split; [exact Hf|]. split; [|congruence].
        apply (paints_trans [u] batch _ _ _ Hp Hp').
      * right. exists e, (u :: ex), v, tl, st'. split; [exact Hf|].
        split; [simpl; congruence|]. split; [exact Hv|]. split; [|congruence].
        apply (paints_trans [u] ex _ _ _ Hp Hp').
    + destruct (render_throw _ _ _ _ Hr) as [Hu ->].
      rewrite (bind_throw _ _ _ _ _ Hr).
      right. exists e, [], u, batch, st. split; [reflexivity|]. split; [reflexivity|].
      split; [exact Hu|]. split; [apply paints_refl | reflexivity].
Qed.

Lemma forEach_render_ok batch st :
  Forall renderable batch →
  ∃ st', forEach render batch st = (Ok tt, st') ∧ paints batch st st' ∧
         stack_ st' = stack_ st.
Proof.
  intros H. destruct (forEach_render_cases batch st)
    as [Hok|(e & ex & u & tl & st' & _ & -> & Hu & _)]; [exact Hok|].
  exfalso. apply Hu. rewrite Forall_app, Forall_cons in H. tauto.
Qed.

(** ** Draining the queue *)

Section DrainFacts.

Variable container : Container.

(** The eager loop paints a prefix of the queue and leaves the rest, unless
    a closure throws, which is then lost. *)
Lemma eager_loop_cases s st :
  stack_ st = Some s →
  ∃ ex rest st',
    snd (eager_loop container s st) = st' ∧ paints ex st st' ∧
    stack_ st' = Some rest ∧
    ((fst (eager_loop container s st) = Ok tt ∧ s = ex ++ rest ∧
      (rest = [] ∨ has_room container st' = false)) ∨
     (∃ e u, fst (eager_loop container s st) = Throw e ∧ s = ex ++ u :: rest ∧
             ¬ renderable u)).
Proof.
  revert st. induction s as [|u s IH]; intros st Hst.
  - exists [], [], st. simpl. split; [reflexivity|]. split; [apply paints_refl|].
    split; [exact Hst|]. left. auto.
  - cbn [eager_loop]. msimpl. destruct (has_room container st) eqn:Hroom.
    + destruct (render u (set_stack (Some s) st)) as [[[]|e] st1] eqn:Hr.
      * destruct (render_cases u (set_stack (Some s) st))
          as [(st1' & Hr' & Hp & Hs)|[e He]]; [|congruence].
        assert (st1' = st1) as -> by congruence.
        destruct (IH st1) as (ex & rest & st' & Hst' & Hp' & Hrest & Hres).
        { rewrite Hs. reflexivity. }
        exists (u :: ex), rest, st'. split; [exact Hst'|].
        split; [apply (paints_trans [u] ex _ _ _ Hp Hp')|].
        split; [exact Hrest|].
        destruct Hres as [(Hok & -> & Hexit)|(e & v & Hth & -> & Hv)].
        -- left. auto.
        -- right. exists e, v. auto.
      * destruct (render_throw _ _ _ _ Hr) as [Hu ->].
        exists [], s, (set_stack (Some s) st). simpl.
        split; [reflexivity|]. split; [apply paints_set_stack|].
        split; [reflexivity|]. right. exists e, u. auto.
    + exists [], (u :: s), st. simpl. split; [reflexivity|].
      split; [apply paints_refl|]. split; [exact Hst|]. left. auto.
Qed.

Lemma scroll_loop_unfold fuel scrollTop s st :
  stack_ st = Some s →
  scroll_loop container (S fuel) scrollTop st =
    if negb (length s =? 0)%nat && near_bottom container scrollTop st
    then (forEach render (take 10 s);; scroll_loop container fuel scrollTop)
           (set_stack (Some (drop 10 s)) st)
    else (Ok tt, st).
Proof.
  intros Hst. cbn [scroll_loop]. msimpl. rewrite Hst. simpl.
  destruct (negb (length s =? 0)%nat && near_bottom container scrollTop st); reflexivity.
Qed.

(** The scroll loop paints whole batches of ten from the head of the queue
    until the queue is empty or the position is no longer near the bottom;
    a closure that throws is lost together with the rest of its batch. *)
Lemma scroll_loop_cases fuel scrollTop s st :
  stack_ st = Some s → (length s < fuel)%nat →
  ∃ ex rest st',
    snd (scroll_loop container fuel scrollTop st) = st' ∧ paints ex st st' ∧
    stack_ st' = Some rest ∧
    ((fst (scroll_loop container fuel scrollTop st) = Ok tt ∧
      ∃ k, ex = take (10 * k) s ∧ rest = drop (10 * k) s ∧
           (rest = [] ∨ near_bottom container scrollTop st' = false)) ∨
     (∃ e u lost, fst (scroll_loop container fuel scrollTop st) = Throw e ∧
                  s = ex ++ u :: lost ++ rest ∧ ¬ renderable u)).
Proof.
  revert s st. induction fuel as [|fuel IH]; intros s st Hst Hfuel; [lia|].
  rewrite (scroll_loop_unfold _ _ _ _ Hst).
  destruct (negb (length s =? 0)%nat && near_bottom container scrollTop st) eqn:Hcond.
  - apply andb_true_iff in Hcond as [Hlen _].
    apply negb_true_iff, Nat.eqb_neq in Hlen.
    destruct (forEach_render_cases (take 10 s) (set_stack (Some (drop 10 s)) st))
      as [(st1 & Hf & Hp & Hs)|(e & ex & u & tl & st1 & Hf & Hb & Hu & Hp & Hs)].
    + rewrite (bind_ok _ _ _ _ _ Hf).
      destruct (IH (drop 10 s) st1) as (ex' & rest & st' & Hst' & Hp' & Hrest & Hres).
      { rewrite Hs. reflexivity. }
      { rewrite length_drop. lia. }
      exists (take 10 s ++ ex'), rest, st'. split; [exact Hst'|].
      split; [apply (paints_trans _ _ _ _ _ Hp Hp')|]. split; [exact Hrest|].
      destruct Hres as [(Hok & k & -> & -> & Hexit)|(e & u & lost & Hth & Hd & Hu)].
      * left. split; [exact Hok|]. exists (S k).
        replace (10 * S k)%nat with (10 + 10 * k)%nat by lia.
        rewrite drop_drop in Hexit. rewrite take_take_drop, drop_drop. auto.
      * right. exists e, u, lost. split; [exact Hth|]. split; [|exact Hu].
        rewrite <- app_assoc, <- Hd. symmetry. apply take_drop.
    + rewrite (bind_throw _ _ _ _ _ Hf).
      exists ex, (drop 10 s), st1. simpl. split; [reflexivity|]. split; [exact Hp|].
      split; [rewrite Hs; reflexivity|]. right. exists e, u, tl.
      split; [reflexivity|]. split; [|exact Hu].
      rewrite <- (take_drop 10 s) at 1. rewrite Hb, <- app_assoc. reflexivity.
  - exists [], s, st. simpl. split; [reflexivity|]. split; [apply paints_refl|].
    split; [exact Hst|]. left. split; [reflexivity|]. exists 0%nat.
    split; [reflexivity|]. split; [reflexivity|].
    apply andb_false_iff in Hcond as [Hlen|Hnear]; [left|right; exact Hnear].
    apply negb_false_iff, Nat.eqb_eq in Hlen. destruct s; [reflexivity|discriminate].
Qed.

(** Fuel above the queue length is never used up. *)
Lemma scroll_loop_fuel fuel fuel' scrollTop s st :
  stack_ st = Some s → (length s < fuel)%nat → (length s < fuel')%nat →
  scroll_loop container fuel scrollTop st = scroll_loop container fuel' scrollTop st.
Proof.
  revert fuel' s st. induction fuel as [|fuel IH]; intros fuel' s st Hst H H'; [lia|].
  destruct fuel' as [|fuel']; [lia|].
  rewrite !(scroll_loop_unfold _ _ _ _ Hst).
  destruct (negb (length s =? 0)%nat && near_bottom container scrollTop st) eqn:Hcond;
    [|reflexivity].
  apply andb_true_iff in Hcond as [Hlen _].
  apply negb_true_iff, Nat.eqb_neq in Hlen.
  destruct (forEach_render_cases (take 10 s) (set_stack (Some (drop 10 s)) st))
    as [(st1 & Hf & Hp & Hs)|(e & ex & u & tl & st1 & Hf & _)].
  - rewrite !(bind_ok _ _ _ _ _ Hf).
    apply (IH fuel' (drop 10 s)); [rewrite Hs; reflexivity | |];
      rewrite length_drop; lia.
  - rewrite !(bind_throw _ _ _ _ _ Hf). reflexivity.
Qed.

End DrainFacts.

(** ** Result aggregation *)



Lemma article_node_ok base_url hit section_hit :
  aggregable hit section_hit →
  ∃ a, article_node base_url hit section_hit = Ok a ∧ article_for base_url a hit.
Proof.
  intros [[hl Hhl] Hs]. unfold article_node, read_highlight. rewrite Hhl.
  rewrite (teaser_loop_last _ _ _ Hs). eexists. split; [reflexivity|].
  repeat split.
Qed.

Lemma aggregate_one_ok result index hit section_hit st s :
  result !! index = Some hit → aggregable hit section_hit → stack_ st = Some s →
  ∃ a, article_for (base_url_ st) a hit ∧
       aggregate_one result index section_hit st =
         (Ok tt, set_stack (Some (s ++ units_for (length (nodes st)) section_hit))
                   (set_nodes (nodes st ++ [a]) st)).
Proof.
  intros Hhit Hagg Hst.
  destruct (article_node_ok (base_url_ st) hit section_hit Hagg) as (a & Ha & Hfor).
  exists a. split; [exact Hfor|].
  unfold aggregate_one. msimpl. rewrite Hhit, Ha. msimpl. rewrite Hst. reflexivity.
Qed.




(** ** Order of execution *)







(** ** Draining in queue order *)

Section DrainOrder.

Variable container : Container.

Lemma read_stack_ok st q : stack_ st = Some q → read_stack st = (Ok q, st).
Proof. intros H. unfold read_stack. msimpl. rewrite H. reflexivity. Qed.

Lemma eager_drain_unfold st q :
  stack_ st = Some q → eager_drain container st = eager_loop container q st.
Proof.
  intros H. unfold eager_drain. rewrite (bind_ok _ _ _ _ _ (read_stack_ok _ _ H)).
  reflexivity.
Qed.

Lemma on_scroll_unfold scrollTop st q :
  stack_ st = Some q →
  on_scroll container scrollTop st = scroll_loop container (S (length q)) scrollTop st.
Proof.
  intros H. unfold on_scroll. rewrite (bind_ok _ _ _ _ _ (read_stack_ok _ _ H)).
  reflexivity.
Qed.

Lemma not_renderable_in u (ex rest q : list RenderUnit) :
  Forall renderable q → q = ex ++ u :: rest → ¬ renderable u → False.
Proof.
  intros Hq -> Hu. apply Hu. rewrite Forall_app, Forall_cons in Hq. tauto.
Qed.

Lemma eager_drain_ok st q :
  stack_ st = Some q → Forall renderable q →
  ∃ n st', eager_drain container st = (Ok tt, st') ∧ paints (take n q) st st' ∧
           stack_ st' = Some (drop n q) ∧
           (drop n q = [] ∨ has_room container st' = false).
Proof.
  intros Hst Hq. rewrite (eager_drain_unfold _ _ Hst).
  destruct (eager_loop_cases container q st Hst)
    as (ex & rest & st' & Hsnd & Hp & Hrest & [(Hok & -> & Hexit)|(e & u & _ & Heq & Hu)]).
  - exists (length ex), st'. rewrite take_app_length, drop_app_length.
    destruct (eager_loop container (ex ++ rest) st) as [o st'']. simpl in *. subst.
    auto.
  - destruct (not_renderable_in _ _ _ _ Hq Heq Hu).
Qed.

Lemma on_scroll_ok scrollTop st q :
  stack_ st = Some q → Forall renderable q →
  ∃ k st', on_scroll container scrollTop st = (Ok tt, st') ∧
           paints (take (10 * k) q) st st' ∧ stack_ st' = Some (drop (10 * k) q) ∧
           (drop (10 * k) q = [] ∨ near_bottom container scrollTop st' = false).
Proof.
  intros Hst Hq. rewrite (on_scroll_unfold _ _ _ Hst).
  destruct (scroll_loop_cases container (S (length q)) scrollTop q st Hst)
    as (ex & rest & st' & Hsnd & Hp & Hrest &
        [(Hok & k & -> & -> & Hexit)|(e & u & lost & _ & Heq & Hu)]); [lia| |].
  - exists k, st'.
    destruct (scroll_loop container (S (length q)) scrollTop st) as [o st''].
    simpl in *. subst. auto.
  - destruct (not_renderable_in _ _ _ _ Hq Heq Hu).
Qed.




End DrainOrder.


Lemma step_scroll container st scrollTop :
  initialized_ st = true →
  step container st (OnScroll scrollTop) = snd (on_scroll container scrollTop st).
Proof. intros H. unfold step, handler. msimpl. rewrite H. reflexivity. Qed.







(** ** Lazy drain *)

(** C3 (as stated): twelve document units are pending in a container with
    no visible room left, the position is at the bottom, and the rows are
    thin enough for the position to stay within the slack after ten of
    them: the one scroll event paints all twelve. *)
Lemma one_batch_per_scroll_counterexample :
  ¬ one_batch_per_scroll (Sample.strip 1) Sample.twelve 600.
Proof.
  intros H.
  destruct (H (map DocumentUnit (seq 0 12))) as [_ Hrest]; try reflexivity.
  vm_compute in Hrest. discriminate Hrest.
Qed.

(** C3 (amended): a scroll event paints whole batches of ten units from
    the head of the queue, re-testing after each batch, until the queue is
    empty or the position is no longer within the 16-unit slack of the
    bottom, so that one event can drain several batches; away from the
    bottom it paints nothing; with twelve units pending, the position
    within the slack at the event and no longer within it once the first
    ten are painted, it paints exactly ten and leaves two. *)
Theorem scroll_paints_batches container scrollTop st q :
  initialized_ st = true →
  stack_ st = Some q →
  Forall renderable q →
  let st' := step container st (OnScroll scrollTop) in
  (∃ k, painted st' = painted st ++ take (10 * k) q ∧
        stack_ st' = Some (drop (10 * k) q) ∧
        (drop (10 * k) q = [] ∨ near_bottom container scrollTop st' = false)) ∧
  (near_bottom container scrollTop st = false →
   painted st' = painted st ∧ stack_ st' = Some q) ∧
  (length q = 12%nat →
   near_bottom container scrollTop st = true →
   near_bottom container scrollTop
     (snd (forEach render (take 10 q) (set_stack (Some (drop 10 q)) st))) = false →
   painted st' = painted st ++ take 10 q ∧ stack_ st' = Some (drop 10 q) ∧
   length (drop 10 q) = 2%nat).
Proof.
  intros Hinit Hst Hq st'. unfold st'. rewrite (step_scroll _ _ _ Hinit).
  split; [|split].
  - destruct (on_scroll_ok container scrollTop st q Hst Hq)
      as (k & st1 & Hrun & [Hp _] & Hs & Hexit).
    exists k. rewrite Hrun. simpl. auto.
  - intros Hfar. rewrite (on_scroll_unfold _ _ _ _ Hst).
    rewrite (scroll_loop_unfold _ _ _ _ _ Hst), Hfar, andb_false_r. simpl.
    auto.
  - intros Hlen Hnear Hfar.
    rewrite (on_scroll_unfold _ _ _ _ Hst).
    rewrite (scroll_loop_unfold _ _ _ _ _ Hst), Hnear, Hlen. simpl negb. cbn [andb].
    destruct (forEach_render_ok (take 10 q) (set_stack (Some (drop 10 q)) st))
      as (st1 & Hf & [Hp _] & Hs).
    { apply Forall_take. exact Hq. }
    rewrite Hf in Hfar. simpl in Hfar.
    rewrite (bind_ok _ _ _ _ _ Hf).
    assert (stack_ st1 = Some (drop 10 q)) as Hs1 by (rewrite Hs; reflexivity).
    rewrite (scroll_loop_unfold _ _ _ _ _ Hs1), Hfar, andb_false_r. simpl.
    split; [exact Hp|]. split; [exact Hs1|]. rewrite length_drop. lia.
Qed.

Lemma scroll_paints_batches_witness :
  let st' := step (Sample.strip 40) Sample.twelve (OnScroll 600) in
  painted st' = map DocumentUnit (seq 0 10) ∧
  stack_ st' = Some [DocumentUnit 10; DocumentUnit 11].
Proof.
  destruct (scroll_paints_batches (Sample.strip 40) 600 Sample.twelve
              (map DocumentUnit (seq 0 12))) as (_ & _ & H).
  - reflexivity.
  - reflexivity.
  - repeat constructor.
  - destruct H as (Hp & Hs & _); [reflexivity | reflexivity | reflexivity |].
    split; [exact Hp | exact Hs].
Defined.

(** ** Replacement of the queue *)

Lemma known_mono st st1 st2 u :
  known st st1 u → (length (nodes st1) ≤ length (nodes st2))%nat → known st st2 u.
Proof. intros [H|H] Hle; [left; exact H | right; lia]. Qed.

Lemma evolves_refl st : evolves st st.
Proof.
  split; [lia|]. split.
  - exists []. split; [symmetry; apply app_nil_r | constructor].
  - apply Forall_forall. intros u Hu. left. exact Hu.
Qed.

Lemma evolves_trans st1 st2 st3 : evolves st1 st2 → evolves st2 st3 → evolves st1 st3.
Proof.
  intros (Hn1 & (ex1 & Hp1 & Hk1) & Hq1) (Hn2 & (ex2 & Hp2 & Hk2) & Hq2).
  assert (∀ u, known st2 st3 u → known st1 st3 u) as Hlift.
  { intros u [Hu|Hu]; [|right; lia].
    rewrite Forall_forall in Hq1. apply (known_mono _ st2); [apply Hq1; exact Hu | lia]. }
  split; [lia|]. split.
  - exists (ex1 ++ ex2). split; [rewrite Hp2, Hp1; symmetry; apply app_assoc|].
    apply Forall_app. split.
    + eapply Forall_impl; [exact Hk1|]. intros u Hu. apply (known_mono _ st2); [exact Hu | lia].
    + eapply Forall_impl; [exact Hk2 | exact Hlift].
  - eapply Forall_impl; [exact Hq2 | exact Hlift].
Qed.

(** A state that differs in neither articles, history nor queue. *)
Lemma evolves_frame st st' :
  nodes st' = nodes st → painted st' = painted st → stack_ st' = stack_ st →
  evolves st st'.
Proof.
  intros Hn Hp Hs. split; [rewrite Hn; lia|]. split.
  - exists []. split; [rewrite Hp; symmetry; apply app_nil_r | constructor].
  - apply Forall_forall. intros u Hu. left. unfold pending in *. rewrite <- Hs. exact Hu.
Qed.

(** Painting units of the queue and leaving part of it. *)
Lemma evolves_drain ex st st' :
  paints ex st st' →
  (∀ u, u ∈ ex → u ∈ pending st) →
  (∀ u, u ∈ pending st' → u ∈ pending st) →
  evolves st st'.
Proof.
  intros [Hp Hn] Hex Hq. split; [lia|]. split.
  - exists ex. split; [exact Hp|]. apply Forall_forall. intros u Hu. left. auto.
  - apply Forall_forall. intros u Hu. left. auto.
Qed.

Lemma evolves_bind {A B} (m : M A) (k : A → M B) st :
  evolves st (snd (m st)) →
  (∀ a st1, m st = (Ok a, st1) → evolves st1 (snd (k a st1))) →
  evolves st (snd ((m ≫= k) st)).
Proof.
  intros Hm Hk. unfold mbind, M_bind. destruct (m st) as [[a|e] st1] eqn:E; simpl in *.
  - apply (evolves_trans _ st1); [exact Hm | apply (Hk a); reflexivity].
  - exact Hm.
Qed.

Section Evolution.

Variable container : Container.

Lemma evolves_eager_drain st : evolves st (snd (eager_drain container st)).
Proof.
  destruct (stack_ st) as [q|] eqn:Hst.
  - rewrite (eager_drain_unfold _ _ _ Hst).
    destruct (eager_loop_cases container q st Hst)
      as (ex & rest & st' & Hsnd & Hp & Hrest & Hres).
    rewrite Hsnd. apply (evolves_drain ex); [exact Hp | |];
      unfold pending; rewrite ?Hst, ?Hrest; simpl; intros u Hu;
      destruct Hres as [(_ & -> & _)|(e & v & _ & -> & _)];
      rewrite ?elem_of_app, ?elem_of_cons; auto.
  - unfold eager_drain, read_stack. msimpl. rewrite Hst. apply evolves_refl.
Qed.

Lemma evolves_on_scroll scrollTop st : evolves st (snd (on_scroll container scrollTop st)).
Proof.
  destruct (stack_ st) as [q|] eqn:Hst.
  - rewrite (on_scroll_unfold _ _ _ _ Hst).
    destruct (scroll_loop_cases container (S (length q)) scrollTop q st Hst)
      as (ex & rest & st' & Hsnd & Hp & Hrest & Hres); [lia|].
    rewrite Hsnd. apply (evolves_drain ex); [exact Hp | |];
      unfold pending; rewrite ?Hst, ?Hrest; simpl; intros u Hu.
    + destruct Hres as [(_ & k & -> & _)|(e & v & lost & _ & -> & _)].
      * rewrite <- (take_drop (10 * k) q), elem_of_app. auto.
      * rewrite elem_of_app. auto.
    + destruct Hres as [(_ & k & _ & -> & _)|(e & v & lost & _ & -> & _)].
      * rewrite <- (take_drop (10 * k) q), elem_of_app. auto.
      * rewrite !elem_of_app, !elem_of_cons, !elem_of_app. auto.
  - unfold on_scroll, read_stack. msimpl. rewrite Hst. apply evolves_refl.
Qed.

Lemma evolves_aggregate_one result index section_hit st :
  evolves st (snd (aggregate_one result index section_hit st)).
Proof.
  unfold aggregate_one. msimpl.
  destruct (result !! index) as [hit|]; [|apply evolves_refl].
  msimpl. destruct (article_node (base_url_ st) hit section_hit) as [a|e];
    [|apply evolves_refl].
  msimpl. destruct (stack_ st) as [s|] eqn:Hst; simpl.
  - split; [simpl; rewrite length_app; lia|]. split.
    + exists []. simpl. split; [symmetry; apply app_nil_r | constructor].
    + unfold pending. simpl. apply Forall_app. split.
      * apply Forall_forall. intros u Hu. left. unfold pending. rewrite Hst. exact Hu.
      * apply Forall_forall. intros u Hu. right. simpl. rewrite length_app. simpl.
        assert (unit_article u = length (nodes st)) as ->; [|lia].
        unfold units_for in Hu. apply elem_of_cons in Hu as [->|Hu]; [reflexivity|].
        apply list_elem_of_fmap in Hu as (h & -> & _). reflexivity.
  - split; [simpl; rewrite length_app; lia|]. split.
    + exists []. simpl. split; [symmetry; apply app_nil_r | constructor].
    + unfold pending. simpl. rewrite Hst. constructor.
Qed.

Lemma evolves_aggregate result section_result :
  ∀ index st, evolves st (snd (forEach_index (aggregate_one result) index section_result st)).
Proof.
  induction section_result as [|section_hit rest IH]; intros index st.
  - apply evolves_refl.
  - cbn [forEach_index]. apply evolves_bind.
    + apply evolves_aggregate_one.
    + intros _ st1 _. apply IH.
Qed.

Lemma evolves_msearch_callback result r st :
  evolves st (snd (msearch_callback container result r st)).
Proof.
  destruct r as [error|section_result]; simpl.
  - apply evolves_frame; reflexivity.
  - apply evolves_bind.
    + apply evolves_aggregate.
    + intros _ st1 _. apply evolves_eager_drain.
Qed.

(** A successful stage-1 response leaves an empty queue, whether or not
    the callback runs to its end; articles and history are not touched. *)
Lemma search_done_state response st :
  let st' := snd (performElasticSearchQuery (inr response) st) in
  stack_ st' = Some [] ∧ nodes st' = nodes st ∧ painted st' = painted st.
Proof.
  unfold performElasticSearchQuery, try_catch.
  destruct (decide (Forall (λ hit, is_Some (highlight hit)) (hits response))) as [Hall|Hex].
  - rewrite (search_callback_ok _ _ Hall). destruct (hits response); simpl; auto.
  - apply not_Forall_Exists in Hex; [|apply _].
    apply Exists_exists in Hex as (hit & Hin & Hnone).
    rewrite (search_callback_throw _ hit _ Hin); [simpl; auto|].
    destruct (highlight hit) as [hl|] eqn:Hh; [|reflexivity].
    exfalso. apply Hnone. exists hl. exact Hh.
Qed.

Lemma evolves_search_done r st :
  evolves st (snd (performElasticSearchQuery r st)).
Proof.
  destruct r as [err|response].
  - apply evolves_refl.
  - destruct (search_done_state response st) as (Hs & Hn & Hp).
    split; [rewrite Hn; lia|]. split.
    + exists []. split; [rewrite Hp; symmetry; apply app_nil_r | constructor].
    + unfold pending. rewrite Hs. constructor.
Qed.

Lemma update_frame ev st :
  let st' := snd (update ev st) in
  nodes st' = nodes st ∧ painted st' = painted st ∧ stack_ st' = stack_ st.
Proof.
  unfold update. msimpl.
  destruct (is_focus (type ev) && negb (initialized_ st)); [simpl; auto|].
  destruct (is_focus (type ev) || is_keyup (type ev)); [|simpl; auto].
  destruct (target ev) as [value|]; [|simpl; auto].
  destruct (negb (initialized_ st) || same_value value (value_ st)); [simpl; auto|].
  msimpl. destruct (String.length value =? 0)%nat; simpl; auto.
Qed.

Lemma evolves_step st i : evolves st (step container st i).
Proof.
  unfold step, handler. destruct i as [ev|scrollTop|k r|k r]; msimpl.
  - destruct (update_frame ev st) as (Hn & Hp & Hs). apply evolves_frame; assumption.
  - destruct (initialized_ st); [apply evolves_on_scroll | apply evolves_refl].
  - destruct (requests st !! k) as [[index body|body result]|]; try apply evolves_refl.
    msimpl.
    apply (evolves_trans _ (set_requests (delete k (requests st)) st));
      [apply evolves_frame; reflexivity | apply evolves_search_done].
  - destruct (requests st !! k) as [[index body|body result]|]; try apply evolves_refl.
    msimpl.
    apply (evolves_trans _ (set_requests (delete k (requests st)) st));
      [apply evolves_frame; reflexivity | apply evolves_msearch_callback].
Qed.

Lemma evolves_run inputs : ∀ st, evolves st (run container st inputs).
Proof.
  induction inputs as [|i inputs IH]; intros st.
  - apply evolves_refl.
  - cbn [run fold_left]. apply (evolves_trans _ (step container st i)).
    + apply evolves_step.
    + apply IH.
Qed.

Lemma refs_ok_evolves st st' : refs_ok st → evolves st st' → refs_ok st'.
Proof.
  unfold refs_ok. intros Hok (Hn & _ & Hq). rewrite Forall_forall in *.
  intros u Hu. destruct (Hq u Hu) as [Hold|Hnew]; [|lia].
  specialize (Hok u Hold). lia.
Qed.

(** In every state the instance can reach, units refer to articles that
    exist. *)
Lemma refs_ok_reachable base_url index_name m inputs :
  refs_ok (run container (construct base_url index_name m) inputs).
Proof.
  apply (refs_ok_evolves (construct base_url index_name m)).
  - constructor.
  - apply evolves_run.
Qed.

End Evolution.

(** ** Overlapping searches *)

(** The overlap in detail: the request still in flight is the stage-2
    batch of the older search ["a"]; when it completes, the article of its
    document and the section are painted below the results of ["ab"]. *)
Example overlap_trace :
  value_ Sample.newer_installed = Some "ab" ∧
  map art_title (attached Sample.newer_installed) = ["Beta"] ∧
  (∃ body result, requests Sample.newer_installed = [Msearch body result] ∧
                  map (λ q, sq_query (snd q)) body = [Some "a"]) ∧
  map art_title (attached (step Sample.box Sample.newer_installed Sample.late))
    = ["Beta"; "Alpha"].
Proof.
  split; [reflexivity|]. split; [reflexivity|]. split; [|reflexivity].
  eexists _, _. split; reflexivity.
Qed.

(** C5 (as stated): after the units of ["ab"] are installed and painted,
    the late stage-2 response of ["a"] builds a new article and its units
    are executed. *)
Lemma stale_never_drained_counterexample :
  ¬ stale_never_drained Sample.box Sample.newer_installed Sample.late [].
Proof.
  intros H. specialize (H (DocumentUnit 1)).
  assert (unit_article (DocumentUnit 1) < length (nodes Sample.newer_installed))%nat as Hlt.
  { apply H. vm_compute. constructor. }
  vm_compute in Hlt. lia.
Qed.

(** C5 (amended): when a stage-1 response is processed the queue is
    replaced by an empty one, and no unit that was pending at that moment
    is executed afterwards by either drain path, whatever inputs follow:
    every unit executed from then on belongs to an article built later.
    (Responses are not matched to searches: a later completion of an older
    search builds and queues its units like any other.) *)
Theorem replaced_units_never_painted container st k index body response inputs :
  refs_ok st →
  requests st !! k = Some (Search index body) →
  let st1 := step container st (SearchDone k (inr response)) in
  stack_ st1 = Some [] ∧
  ∃ ex, painted (run container st1 inputs) = painted st ++ ex ∧
        ∀ u, u ∈ ex → (length (nodes st) ≤ unit_article u)%nat ∧ u ∉ pending st.
Proof.
  intros Hok Hk st1.
  assert (st1 = snd (performElasticSearchQuery (inr response)
                       (set_requests (delete k (requests st)) st))) as Hst1.
  { unfold st1, step, handler. msimpl. rewrite Hk. reflexivity. }
  destruct (search_done_state response (set_requests (delete k (requests st)) st))
    as (Hs & Hn & Hp).
  rewrite <- Hst1 in Hs, Hn, Hp. simpl in Hn, Hp.
  split; [exact Hs|].
  destruct (evolves_run container inputs st1) as (_ & (ex & Hex & Hknown) & _).
  exists ex. split; [rewrite Hex, Hp; reflexivity|].
  intros u Hu. rewrite Forall_forall in Hknown.
  assert (length (nodes st) ≤ unit_article u)%nat as Hfresh.
  { destruct (Hknown u Hu) as [Hpend|Hnew].
    - unfold pending in Hpend. rewrite Hs in Hpend. inversion Hpend.
    - rewrite Hn in Hnew. lia. }
  split; [exact Hfresh|]. intros Hpend.
  unfold refs_ok in Hok. rewrite Forall_forall in Hok. specialize (Hok u Hpend). lia.
Qed.

Lemma replaced_units_never_painted_witness :
  let st := run (Sample.strip 1) Sample.fresh Sample.requery in
  let st1 := step (Sample.strip 1) st
               (SearchDone 0 (inr {| hits := [Sample.doc "beta" "Beta"]; total := 1 |})) in
  pending st = map DocumentUnit (seq 0 12) ∧
  stack_ st1 = Some [] ∧
  ∃ ex, painted (run (Sample.strip 1) st1 [MsearchDone 0 (inr [[]]); OnScroll 600])
          = painted st ++ ex ∧
        ∀ u, u ∈ ex → (length (nodes st) ≤ unit_article u)%nat ∧ u ∉ pending st.
Proof.
  intros st st1. split; [reflexivity|].
  apply (replaced_units_never_painted (Sample.strip 1) st 0 "mkdocs"
           (buildElasticSearchQuery "ab")).
  - apply refs_ok_reachable.
  - reflexivity.
Defined.

(* ------------------------------------------------------------------ *)
(** * Further properties *)
(* ------------------------------------------------------------------ *)

(** ** More on [truncate] *)

Lemma scan_range s n :
  truncate_scan s n = -1 ∨ truncate_scan s n = 0 ∨
  (1 ≤ truncate_scan s n ≤ Z.of_nat n ∧ space_at s (Z.to_nat (truncate_scan s n))).
Proof.
  induction n as [|m IH]; cbn [truncate_scan].
  - destruct (Str.is_space (String.get 0 s)); auto.
  - destruct (Str.is_space (String.get (S m) s)) eqn:E.
    + right. right. split; [lia|]. rewrite Nat2Z.id. apply is_space_true. exact E.
    + destruct (0 <? Z.of_nat m) eqn:Hm.
      * destruct IH as [H|[H|[H Hs]]]; auto. right. right. split; [lia | exact Hs].
      * apply Z.ltb_ge in Hm. right. left. lia.
Qed.

Lemma length_prefix s m : (String.length (String.substring 0 m s) ≤ m)%nat.
Proof.
  revert s. induction m as [|m IH]; intros s; destruct s as [|c s]; simpl; try lia.
  specialize (IH s). lia.
Qed.

Lemma length_append s t :
  String.length (s +:+ t) = (String.length s + String.length t)%nat.
Proof. induction s as [|c s IH]; simpl; [reflexivity | rewrite IH; reflexivity]. Qed.

Lemma truncate_bound s n : (String.length (truncate s n) ≤ n + 3)%nat.
Proof.
  destruct (le_lt_dec (String.length s) n) as [Hle|Hlt].
  - rewrite truncate_short by exact Hle. lia.
  - rewrite truncate_long by exact Hlt. rewrite length_append. simpl.
    destruct (scan_range s n) as [H|[H|[H _]]].
    + rewrite substring_nonpos by lia. simpl. lia.
    + rewrite substring_nonpos by lia. simpl. lia.
    + rewrite <- (Z2Nat.id (truncate_scan s n)) by lia.
      rewrite substring_prefix by lia.
      pose proof (length_prefix s (Z.to_nat (truncate_scan s n))). lia.
Qed.

(** X1: whatever the input, the result of [truncate] is at most three
    characters longer than the budget. *)
Theorem truncate_length s n : (String.length (truncate s n) ≤ n + 3)%nat.
Proof. apply truncate_bound. Qed.

(** X2: a string longer than the budget is cut either at its very start or
    at a space at or before the budget, nowhere else, and the prefix kept
    is followed by the ellipsis. *)
Theorem truncate_cut_point s n :
  (n < String.length s)%nat →
  ∃ j, (j ≤ n)%nat ∧ truncate s n = String.substring 0 j s +:+ "..." ∧
       (j = 0%nat ∨ space_at s j).
Proof.
  intros Hlt. rewrite truncate_long by exact Hlt.
  destruct (scan_range s n) as [H|[H|[H Hs]]].
  - exists 0%nat. rewrite substring_nonpos by lia. split; [lia|].
    split; [destruct s; reflexivity | auto].
  - exists 0%nat. rewrite substring_nonpos by lia. split; [lia|].
    split; [destruct s; reflexivity | auto].
  - exists (Z.to_nat (truncate_scan s n)). split; [lia|]. split; [|auto].
    rewrite <- (Z2Nat.id (truncate_scan s n)) at 1 by lia.
    rewrite substring_prefix by lia. reflexivity.
Qed.

Lemma truncate_cut_point_witness :
  ∃ j, (j ≤ 7)%nat ∧ truncate "ab cd efghij" 7 = String.substring 0 j "ab cd efghij" +:+ "..." ∧
       (j = 0%nat ∨ space_at "ab cd efghij" j).
Proof. apply truncate_cut_point. simpl. lia. Defined.

(** ** [escapeRegex] *)

Lemma escapeRegex_length regex :
  String.length (escapeRegex regex) = (String.length regex + count_special regex)%nat.
Proof.
  induction regex as [|c rest IH]; [reflexivity|].
  simpl. destruct (regex_special c); simpl; rewrite IH; lia.
Qed.

(** X3: [escapeRegex] adds one character per character of the class and
    returns its argument unchanged exactly when it holds none. *)
Theorem escapeRegex_grows regex :
  String.length (escapeRegex regex) = (String.length regex + count_special regex)%nat ∧
  (escapeRegex regex = regex ↔ count_special regex = 0%nat).
Proof.
  split; [apply escapeRegex_length|]. split.
  - intros H. pose proof (escapeRegex_length regex) as Hl. rewrite H in Hl. lia.
  - induction regex as [|c rest IH]; [reflexivity|]. simpl.
    destruct (regex_special c); [discriminate|]. simpl. intros H. rewrite IH by exact H.
    reflexivity.
Qed.

Lemma backslash_special : regex_special "\"%char = true.
Proof. reflexivity. Qed.

(** X4: [escapeRegex] loses no information (two strings with the same
    escaped form are equal) and distributes over concatenation. *)
Theorem escapeRegex_injective r1 r2 :
  (escapeRegex r1 = escapeRegex r2 → r1 = r2) ∧
  escapeRegex (r1 +:+ r2) = escapeRegex r1 +:+ escapeRegex r2.
Proof.
  split.
  - revert r2. induction r1 as [|c1 r1 IH]; intros [|c2 r2]; simpl.
    + reflexivity.
    + destruct (regex_special c2); discriminate.
    + destruct (regex_special c1); discriminate.
    + destruct (regex_special c1) eqn:E1, (regex_special c2) eqn:E2; intros H.
      * injection H as -> H. f_equal. apply IH. exact H.
      * injection H as <- _. rewrite backslash_special in E2. discriminate.
      * injection H as -> _. rewrite backslash_special in E1. discriminate.
      * injection H as -> H. f_equal. apply IH. exact H.
  - induction r1 as [|c r1 IH]; [reflexivity|]. simpl.
    destruct (regex_special c); simpl; rewrite IH; reflexivity.
Qed.

Lemma escapeRegex_injective_witness :
  "a.b" = "a.b" ∧ escapeRegex ("a." +:+ "b") = escapeRegex "a." +:+ escapeRegex "b".
Proof.
  destruct (escapeRegex_injective "a.b" "a.b") as [Hinj _].
  destruct (escapeRegex_injective "a." "b") as [_ Happ].
  split; [apply Hinj; reflexivity | exact Happ].
Defined.

(** ** More on the input controller *)

Lemma update_first_focus ev st :
  initialized_ st = false → type ev = focus →
  update ev st = (Ok tt, set_initialized true st).
Proof. intros Hi Ht. unfold update. msimpl. rewrite Hi, Ht. reflexivity. Qed.

Lemma update_not_input ev st :
  (type ev = keyup ∨ type ev = focus ∧ initialized_ st = true) →
  target ev = None →
  update ev st = (Throw ReferenceError, st).
Proof.
  intros Hty Htg. unfold update. msimpl. rewrite Htg.
  destruct Hty as [-> | [-> ->]]; reflexivity.
Qed.

(** X5: clearing the input of an initialized instance empties the result
    list, restores the placeholder text and records the empty value; no
    request is dispatched, and the queue of the previous search is left in
    place. *)
Theorem clearing_the_input ev st :
  initialized_ st = true →
  type ev = focus ∨ type ev = keyup →
  target ev = Some "" →
  value_ st ≠ Some "" →
  ∃ st', update ev st = (Ok tt, st') ∧
         list_ st' = [] ∧ meta_ st' = placeholder (message_ st) ∧
         value_ st' = Some "" ∧ requests st' = requests st ∧
         stack_ st' = stack_ st ∧ nodes st' = nodes st ∧ painted st' = painted st.
Proof.
  intros Hi Hty Htg Hv. rewrite (update_accept ev "" st Hi Hty Htg Hv). simpl.
  eexists. split; [reflexivity|]. simpl. auto 10.
Qed.

Lemma clearing_the_input_witness :
  ∃ st', update (keyup_of "") Sample.twelve = (Ok tt, st') ∧
         list_ st' = [] ∧ meta_ st' = "Type to start searching" ∧
         stack_ st' = stack_ Sample.twelve.
Proof.
  destruct (clearing_the_input (keyup_of "") Sample.twelve)
    as (st' & H & Hl & Hm & _ & _ & Hs & _).
  - reflexivity.
  - right. reflexivity.
  - reflexivity.
  - intros Hv. vm_compute in Hv. discriminate Hv.
  - exists st'. auto.
Defined.

(** X6: an accepted non-empty input empties the result list at once,
    records the value and dispatches exactly one stage-1 request of size 50
    carrying that text; the metadata text and the queue stay as they were
    until a response arrives. *)
Theorem accepting_a_query ev value st :
  initialized_ st = true →
  type ev = focus ∨ type ev = keyup →
  target ev = Some value →
  value ≠ "" →
  value_ st ≠ Some value →
  ∃ st', update ev st = (Ok tt, st') ∧
         list_ st' = [] ∧ value_ st' = Some value ∧
         requests st' =
           requests st ++ [Search (es_index_name st) {| dq_size := 50; dq_query := value |}] ∧
         meta_ st' = meta_ st ∧ stack_ st' = stack_ st ∧
         nodes st' = nodes st ∧ painted st' = painted st.
Proof.
  intros Hi Hty Htg Hne Hv. rewrite (update_accept ev value st Hi Hty Htg Hv).
  destruct value as [|c value]; [contradiction|]. simpl.
  eexists. split; [reflexivity|]. simpl. auto 10.
Qed.

Lemma accepting_a_query_witness :
  ∃ st', update (keyup_of "ab") Sample.shown = (Ok tt, st') ∧
         list_ st' = [] ∧ meta_ st' = "1 matching document" ∧
         requests st' = [Search "mkdocs" {| dq_size := 50; dq_query := "ab" |}].
Proof.
  destruct (accepting_a_query (keyup_of "ab") "ab" Sample.shown)
    as (st' & H & Hl & _ & Hr & Hm & _).
  - reflexivity.
  - right. reflexivity.
  - reflexivity.
  - discriminate.
  - discriminate.
  - exists st'. auto.
Defined.

(** X7: the first [focus] only initializes: whatever its target holds,
    nothing is cleared, recorded or dispatched, so the text present at
    that moment is queried by the next event that carries it. *)
Theorem first_focus_only_initializes ev st :
  initialized_ st = false → type ev = focus →
  update ev st = (Ok tt, set_initialized true st) ∧
  (∀ value, value ≠ "" → value_ st ≠ Some value →
     requests (snd (update (keyup_of value) (set_initialized true st))) =
       requests st ++ [Search (es_index_name st) (buildElasticSearchQuery value)]).
Proof.
  intros Hi Ht. split; [apply update_first_focus; assumption|].
  intros value Hne Hv.
  rewrite (update_accept (keyup_of value) value) by (simpl; auto).
  destruct value; [contradiction|]. reflexivity.
Qed.

Lemma first_focus_only_initializes_witness :
  update {| type := focus; target := Some "query" |} Sample.fresh
    = (Ok tt, set_initialized true Sample.fresh).
Proof.
  destruct (first_focus_only_initializes {| type := focus; target := Some "query" |}
              Sample.fresh) as [H _]; [reflexivity | reflexivity | exact H].
Defined.

(** X8: [update] changes the instance only as the initializing [focus],
    or, once initialized, on a [focus] or [keyup] whose input holds a
    value other than the stored one; every other event leaves it
    untouched. *)
Theorem update_changes_only_when ev st :
  snd (update ev st) ≠ st →
  (type ev = focus ∧ initialized_ st = false) ∨
  (initialized_ st = true ∧ (type ev = focus ∨ type ev = keyup) ∧
   ∃ value, target ev = Some value ∧ value_ st ≠ Some value).
Proof.
  intros Hneq.
  destruct (initialized_ st) eqn:Hi.
  - right. split; [reflexivity|].
    destruct (type ev) eqn:Ht.
    + split; [auto|]. destruct (target ev) as [value|] eqn:Htg.
      * exists value. split; [reflexivity|]. intros Hv. apply Hneq.
        rewrite (update_unchanged ev value st Hi) by auto. reflexivity.
      * exfalso. apply Hneq. rewrite update_not_input by auto. reflexivity.
    + split; [auto|]. destruct (target ev) as [value|] eqn:Htg.
      * exists value. split; [reflexivity|]. intros Hv. apply Hneq.
        rewrite (update_unchanged ev value st Hi) by auto. reflexivity.
      * exfalso. apply Hneq. rewrite update_not_input by auto. reflexivity.
    + exfalso. apply Hneq. unfold update. msimpl. rewrite Hi, Ht. reflexivity.
  - destruct (type ev) eqn:Ht; [left; auto | |];
      exfalso; apply Hneq; unfold update; msimpl; rewrite Hi, Ht; simpl;
      destruct (target ev); reflexivity.
Qed.

Lemma update_changes_only_when_witness :
  (type (keyup_of "ab") = focus ∧ initialized_ Sample.shown = false) ∨
  (initialized_ Sample.shown = true ∧
   (type (keyup_of "ab") = focus ∨ type (keyup_of "ab") = keyup) ∧
   ∃ value, target (keyup_of "ab") = Some value ∧ value_ Sample.shown ≠ Some value).
Proof. apply update_changes_only_when. vm_compute. discriminate. Defined.

(** X9: a [keyup], or a [focus] after initialization, whose target is not
    an input element throws a [ReferenceError] and changes nothing. *)
Theorem update_rejects_other_targets ev st :
  (type ev = keyup ∨ type ev = focus ∧ initialized_ st = true) →
  target ev = None →
  update ev st = (Throw ReferenceError, st).
Proof. apply update_not_input. Qed.

Lemma update_rejects_other_targets_witness :
  update {| type := keyup; target := None |} Sample.fresh
    = (Throw ReferenceError, Sample.fresh).
Proof. apply update_rejects_other_targets; [left|]; reflexivity. Defined.

(** ** What the drains leave alone *)

Lemma quiet_refl st : quiet st st.
Proof. repeat split. Qed.

Lemma quiet_trans st1 st2 st3 : quiet st1 st2 → quiet st2 st3 → quiet st1 st3.
Proof.
  unfold quiet. intros (?&?&?&?&?&?&?&?) (?&?&?&?&?&?&?&?).
  repeat split; congruence.
Qed.

Lemma quiet_bind {A B} (m : M A) (k : A → M B) st :
  quiet st (snd (m st)) →
  (∀ a st1, m st = (Ok a, st1) → quiet st1 (snd (k a st1))) →
  quiet st (snd ((m ≫= k) st)).
Proof.
  intros Hm Hk. unfold mbind, M_bind. destruct (m st) as [[a|e] st1] eqn:E; simpl in *.
  - apply (quiet_trans _ st1); [exact Hm | apply (Hk a); reflexivity].
  - exact Hm.
Qed.

Lemma quiet_render u st : quiet st (snd (render u st)).
Proof.
  destruct (render_cases u st) as [(st' & Hr & _)|[e He]].
  - rewrite Hr. destruct u as [a|a hit]; simpl in Hr.
    + injection Hr as <-. repeat split.
    + revert Hr. msimpl. destruct (section_node (base_url_ st) hit); [|discriminate].
      intros [= <-]. repeat split.
  - rewrite He. apply quiet_refl.
Qed.

Lemma quiet_forEach_render batch : ∀ st, quiet st (snd (forEach render batch st)).
Proof.
  induction batch as [|u batch IH]; intros st; [apply quiet_refl|].
  cbn [forEach]. apply quiet_bind; [apply quiet_render|]. intros _ st1 _. apply IH.
Qed.

Lemma quiet_read_stack st : quiet st (snd (read_stack st)).
Proof. unfold read_stack. msimpl. destruct (stack_ st); apply quiet_refl. Qed.

Lemma read_stack_state st o st' : read_stack st = (o, st') → st' = st.
Proof. unfold read_stack. msimpl. destruct (stack_ st); intros [= _ <-]; reflexivity. Qed.






Section Quiet.

Variable container : Container.

Lemma quiet_eager_loop s : ∀ st, quiet st (snd (eager_loop container s st)).
Proof.
  induction s as [|u s IH]; intros st; [apply quiet_refl|].
  cbn [eager_loop]. msimpl. destruct (has_room container st); [|apply quiet_refl].
  destruct (render u (set_stack (Some s) st)) as [[[]|e] st1] eqn:Hr; simpl.
  - apply (quiet_trans _ st1); [|apply IH].
    pose proof (quiet_render u (set_stack (Some s) st)) as H. rewrite Hr in H. exact H.
  - pose proof (quiet_render u (set_stack (Some s) st)) as H. rewrite Hr in H. exact H.
Qed.

Lemma quiet_eager_drain st : quiet st (snd (eager_drain container st)).
Proof.
  unfold eager_drain. apply quiet_bind; [apply quiet_read_stack|].
  intros s st1 _. apply quiet_eager_loop.
Qed.

Lemma quiet_scroll_loop fuel scrollTop : ∀ st,
  quiet st (snd (scroll_loop container fuel scrollTop st)).
Proof.
  induction fuel as [|fuel IH]; intros st; [apply quiet_refl|].
  destruct (stack_ st) as [s|] eqn:Hst.
  - rewrite (scroll_loop_unfold _ _ _ _ _ Hst).
    destruct (negb (length s =? 0)%nat && near_bottom container scrollTop st);
      [|apply quiet_refl].
    apply (quiet_trans _ (set_stack (Some (drop 10 s)) st)); [repeat split|].
    apply quiet_bind; [apply quiet_forEach_render|]. intros _ st1 _. apply IH.
  - cbn [scroll_loop]. unfold read_stack. msimpl. rewrite Hst. apply quiet_refl.
Qed.

Lemma quiet_on_scroll scrollTop st : quiet st (snd (on_scroll container scrollTop st)).
Proof.
  unfold on_scroll. apply quiet_bind; [apply quiet_read_stack|].
  intros s st1 _. apply quiet_scroll_loop.
Qed.

Lemma quiet_aggregate_one result index section_hit st :
  quiet st (snd (aggregate_one result index section_hit st)).
Proof.
  unfold aggregate_one. msimpl.
  destruct (result !! index) as [hit|]; [|apply quiet_refl].
  msimpl. destruct (article_node (base_url_ st) hit section_hit) as [a|e];
    [|apply quiet_refl].
  msimpl. destruct (stack_ st); repeat split.
Qed.

Lemma quiet_aggregate result section_result : ∀ index st,
  quiet st (snd (forEach_index (aggregate_one result) index section_result st)).
Proof.
  induction section_result as [|section_hit rest IH]; intros index st; [apply quiet_refl|].
  cbn [forEach_index]. apply quiet_bind; [apply quiet_aggregate_one|].
  intros _ st1 _. apply IH.
Qed.

Lemma quiet_scroll_step scrollTop st :
  quiet st (step container st (OnScroll scrollTop)).
Proof.
  unfold step, handler. msimpl.
  destruct (initialized_ st); [apply quiet_on_scroll | apply quiet_refl].
Qed.




(** X11: the completion of a stage-2 request removes that request and
    leaves metadata text, stored value and initialization alone; when it
    failed, it logs one line, the fixed prefix followed by the error as
    the language prints it (its name, then a colon and the message unless
    the message is empty), and changes neither queue, articles, result
    list nor history; when it succeeded, it logs nothing. *)
Theorem stage2_completion_frame k body result r st :
  requests st !! k = Some (Msearch body result) →
  let st' := step container st (MsearchDone k r) in
  requests st' = delete k (requests st) ∧ meta_ st' = meta_ st ∧
  value_ st' = value_ st ∧ initialized_ st' = initialized_ st ∧
  match r with
  | inl error =>
      console st' =
        console st ++ ["Error during elastic msearch query: " +:+ exn_to_string error] ∧
      stack_ st' = stack_ st ∧ nodes st' = nodes st ∧ list_ st' = list_ st ∧
      painted st' = painted st
  | inr _ => console st' = console st
  end.
Proof.
  intros Hk st'. unfold st', step, handler. msimpl. rewrite Hk. msimpl.
  destruct r as [error|section_result]; simpl.
  - auto 10.
  - assert (quiet (set_requests (delete k (requests st)) st)
              (snd ((aggregate result section_result;; eager_drain container)
                      (set_requests (delete k (requests st)) st)))) as Hq.
    { apply quiet_bind; [apply quiet_aggregate|]. intros _ st1 _. apply quiet_eager_drain. }
    destruct Hq as (_ & _ & _ & Hm & Hv & Hi & Hr & Hc). simpl in *. auto.
Qed.

End Quiet.


Lemma stage2_completion_frame_witness :
  (let st' := step Sample.box Sample.newer_installed
                (MsearchDone 0 (inl (Error "timeout"))) in
   requests st' = [] ∧
   console st' = ["Error during elastic msearch query: Error: timeout"] ∧
   painted st' = painted Sample.newer_installed) ∧
  console (step Sample.box Sample.newer_installed (MsearchDone 0 (inl (Error ""))))
    = ["Error during elastic msearch query: Error"].
Proof.
  destruct (requests Sample.newer_installed) as [|[index body|body result] rest] eqn:Hreq;
    try discriminate Hreq.
  split.
  - intros st'.
    destruct (stage2_completion_frame Sample.box 0 body result (inl (Error "timeout"))
                Sample.newer_installed) as (Hr & _ & _ & _ & Hc & _ & _ & _ & Hp).
    + rewrite Hreq. reflexivity.
    + split; [|split].
      * reflexivity.
      * exact Hc.
      * exact Hp.
  - destruct (stage2_completion_frame Sample.box 0 body result (inl (Error ""))
                Sample.newer_installed) as (_ & _ & _ & _ & Hc & _).
    + rewrite Hreq. reflexivity.
    + exact Hc.
Defined.


(** ** Configuration and initialization *)

Lemma configured_refl st : configured st st.
Proof. repeat split. auto. Qed.

Lemma configured_trans st1 st2 st3 :
  configured st1 st2 → configured st2 st3 → configured st1 st3.
Proof.
  unfold configured. intros (?&?&?&?) (?&?&?&?). repeat split; try congruence. auto.
Qed.

Lemma quiet_configured st st' : quiet st st' → configured st st'.
Proof.
  intros (?&?&?&_&_&Hi&_). repeat split; try assumption. rewrite Hi. auto.
Qed.

Lemma configured_update ev st : configured st (snd (update ev st)).
Proof.
  unfold update. msimpl.
  destruct (is_focus (type ev) && negb (initialized_ st)); [repeat split|].
  destruct (is_focus (type ev) || is_keyup (type ev)); [|apply configured_refl].
  destruct (target ev) as [value|]; [|apply configured_refl].
  destruct (negb (initialized_ st) || same_value value (value_ st));
    [apply configured_refl|].
  msimpl. destruct (String.length value =? 0)%nat; repeat split; auto.
Qed.

(** The state a stage-1 completion leaves, whatever the response. *)
Lemma search_done_cases r st :
  (∃ e, performElasticSearchQuery r st = (Throw e, st) ∧ e = ReferenceError) ∨
  (performElasticSearchQuery r st = (Throw ReferenceError, set_stack (Some []) st)) ∨
  (∃ response, r = inr response ∧
     Forall (λ hit, is_Some (highlight hit)) (hits response) ∧
     performElasticSearchQuery r st =
       (Ok tt,
        set_meta (meta_text (message_ st) (total response))
          (match hits response with
           | [] => set_stack (Some []) st
           | _ :: _ =>
               set_requests
                 (requests st ++
                    [Msearch (map (post_body_of (es_index_name st) (value_ st))
                                (hits response))
                             (hits response)])
                 (set_stack (Some []) st)
           end))).
Proof.
  destruct r as [err|response].
  - left. exists ReferenceError. split; reflexivity.
  - unfold performElasticSearchQuery, try_catch.
    destruct (decide (Forall (λ hit, is_Some (highlight hit)) (hits response))) as [Hall|Hex].
    + right. right. exists response. split; [reflexivity|]. split; [exact Hall|].
      rewrite (search_callback_ok _ _ Hall). reflexivity.
    + right. left. apply not_Forall_Exists in Hex; [|apply _].
      apply Exists_exists in Hex as (hit & Hin & Hnone).
      rewrite (search_callback_throw _ hit _ Hin); [reflexivity|].
      destruct (highlight hit) as [hl|] eqn:Hh; [|reflexivity].
      exfalso. apply Hnone. exists hl. exact Hh.
Qed.

Lemma configured_search_done r st : configured st (snd (performElasticSearchQuery r st)).
Proof.
  destruct (search_done_cases r st) as [(e & H & _)|[H|(response & _ & _ & H)]];
    rewrite H; simpl.
  - apply configured_refl.
  - repeat split. auto.
  - destruct (hits response); repeat split; auto.
Qed.

Section Configuration.

Variable container : Container.

Lemma configured_step st i : configured st (step container st i).
Proof.
  destruct i as [ev|scrollTop|k r|k r].
  - apply configured_update.
  - apply quiet_configured, quiet_scroll_step.
  - unfold step, handler. msimpl.
    destruct (requests st !! k) as [[index body|body result]|]; try apply configured_refl.
    msimpl.
    apply (configured_trans _ (set_requests (delete k (requests st)) st));
      [repeat split; auto | apply configured_search_done].
  - unfold step, handler. msimpl.
    destruct (requests st !! k) as [[index body|body result]|]; try apply configured_refl.
    msimpl.
    apply (configured_trans _ (set_requests (delete k (requests st)) st));
      [repeat split; auto|].
    destruct r as [error|section_result]; simpl; [repeat split; auto|].
    apply quiet_configured.
    apply quiet_bind; [apply quiet_aggregate|]. intros _ st1 _. apply quiet_eager_drain.
Qed.

Lemma configured_run_aux inputs : ∀ st, configured st (run container st inputs).
Proof.
  induction inputs as [|i inputs IH]; intros st; [apply configured_refl|].
  cbn [run fold_left]. apply (configured_trans _ (step container st i));
    [apply configured_step | apply IH].
Qed.

(** X12: no sequence of inputs changes the base URL, the index name or the
    messages, and none undoes the initialization. *)
Theorem configuration_is_kept st inputs :
  let st' := run container st inputs in
  base_url_ st' = base_url_ st ∧ es_index_name st' = es_index_name st ∧
  message_ st' = message_ st ∧
  (initialized_ st = true → initialized_ st' = true).
Proof. apply configured_run_aux. Qed.

Lemma idle_step st i :
  initialized_ st = false → requests st = [] →
  initialized_ (step container st i) = false → step container st i = st.
Proof.
  intros Hi Hr Hi'. destruct i as [ev|scrollTop|k r|k r].
  - change (snd (update ev st) = st).
    change (initialized_ (snd (update ev st)) = false) in Hi'.
    destruct (type ev) eqn:Ht.
    + rewrite update_first_focus in Hi' by assumption. discriminate Hi'.
    + unfold update. msimpl. rewrite Hi, Ht. simpl. destruct (target ev); reflexivity.
    + unfold update. msimpl. rewrite Hi, Ht. reflexivity.
  - unfold step, handler. msimpl. rewrite Hi. reflexivity.
  - unfold step, handler. msimpl. rewrite Hr. reflexivity.
  - unfold step, handler. msimpl. rewrite Hr. reflexivity.
Qed.

(** X13: until its first [focus] the instance does nothing at all: as
    long as it is not initialized, whatever inputs arrived have left it
    exactly as it was, with no request issued. *)
Theorem untouched_until_first_focus st inputs :
  initialized_ st = false → requests st = [] →
  initialized_ (run container st inputs) = false →
  run container st inputs = st.
Proof.
  revert st. induction inputs as [|i inputs IH]; intros st Hi Hr Hfin; [reflexivity|].
  cbn [run fold_left] in *.
  destruct (initialized_ (step container st i)) eqn:Hstep.
  - destruct (configured_run_aux inputs (step container st i)) as (_ & _ & _ & Hmono).
    unfold run in Hmono. rewrite (Hmono Hstep) in Hfin. discriminate Hfin.
  - rewrite (idle_step st i Hi Hr Hstep) in *. apply IH; assumption.
Qed.

(** X14: a scroll before initialization is not heard; a scroll after
    initialization but before the first stage-1 response finds [stack_]
    undefined and throws a [TypeError], changing nothing. *)
Theorem scroll_before_first_response scrollTop st :
  (initialized_ st = false → handler container (OnScroll scrollTop) st = (Ok tt, st)) ∧
  (initialized_ st = true → stack_ st = None →
   handler container (OnScroll scrollTop) st = (Throw TypeError, st)).
Proof.
  split.
  - intros Hi. unfold handler. msimpl. rewrite Hi. reflexivity.
  - intros Hi Hs. unfold handler, on_scroll. msimpl. rewrite Hi. msimpl. rewrite Hs.
    reflexivity.
Qed.

End Configuration.

Lemma configuration_is_kept_witness :
  let st' := run Sample.box Sample.shown [Sample.type_in "ab"; OnScroll 0] in
  message_ st' = message_ Sample.shown ∧ initialized_ st' = true.
Proof.
  destruct (configuration_is_kept Sample.box Sample.shown
              [Sample.type_in "ab"; OnScroll 0]) as (_ & _ & Hm & Hi).
  split; [exact Hm | apply Hi; vm_compute; reflexivity].
Defined.

Lemma untouched_until_first_focus_witness :
  run Sample.box Sample.fresh
    [ Sample.type_in "a"; OnScroll 120;
      SearchDone 0 (inr {| hits := [Sample.intro_doc]; total := 1 |}) ]
  = Sample.fresh.
Proof. apply untouched_until_first_focus; vm_compute; reflexivity. Defined.

Lemma scroll_before_first_response_witness :
  handler Sample.box (OnScroll 0) (set_initialized true Sample.fresh)
    = (Throw TypeError, set_initialized true Sample.fresh).
Proof.
  destruct (scroll_before_first_response Sample.box 0 (set_initialized true Sample.fresh))
    as [_ H]. apply H; reflexivity.
Defined.


(** X15: stage 1 never reports a failure: a failed query, and a callback
    that throws on a hit without [highlight], both end in a
    [ReferenceError] (the latter with the queue already reset), and in no
    case is anything written to the console. *)
Theorem stage1_never_reports r st response hit :
  (∀ err, performElasticSearchQuery (inl err) st = (Throw ReferenceError, st)) ∧
  (hit ∈ hits response → highlight hit = None →
   performElasticSearchQuery (inr response) st =
     (Throw ReferenceError, set_stack (Some []) st)) ∧
  console (snd (performElasticSearchQuery r st)) = console st.
Proof.
  split; [reflexivity|]. split.
  - intros Hin Hnone. unfold performElasticSearchQuery, try_catch.
    rewrite (search_callback_throw _ hit _ Hin Hnone). reflexivity.
  - destruct (search_done_cases r st) as [(e & H & _)|[H|(resp & _ & _ & H)]];
      rewrite H; simpl; [reflexivity | reflexivity |].
    destruct (hits resp); reflexivity.
Qed.

Lemma stage1_never_reports_witness :
  performElasticSearchQuery
    (inr {| hits := [Sample.bare "faq" "FAQ"]; total := 1 |}) Sample.fresh
  = (Throw ReferenceError, set_stack (Some []) Sample.fresh).
Proof.
  destruct (stage1_never_reports (inl TypeError) Sample.fresh
              {| hits := [Sample.bare "faq" "FAQ"]; total := 1 |} (Sample.bare "faq" "FAQ"))
    as (_ & H & _).
  apply H; [left | reflexivity].
Defined.

(** ** What a stage-1 response sets off *)

Lemma replace_hash_first a b by_ :
  hash_free a → Str.replace_hash (a +:+ "#" +:+ b) by_ = a +:+ by_ +:+ b.
Proof.
  induction a as [|c a IH]; intros H; [reflexivity|].
  destruct H as [Hc Ha]. simpl.
  destruct (Ascii.eqb c "#") eqn:E; [apply Ascii.eqb_eq in E; contradiction|].
  rewrite IH by exact Ha. reflexivity.
Qed.

Lemma replace_hash_none s by_ : hash_free s → Str.replace_hash s by_ = s.
Proof.
  induction s as [|c s IH]; intros H; [reflexivity|].
  destruct H as [Hc Hs]. simpl.
  destruct (Ascii.eqb c "#") eqn:E; [apply Ascii.eqb_eq in E; contradiction|].
  rewrite IH by exact Hs. reflexivity.
Qed.

Lemma search_callback_meta response st :
  Forall (λ hit, is_Some (highlight hit)) (hits response) →
  meta_ (snd (search_callback (inr response) st)) =
    meta_text (message_ st) (total response).
Proof.
  intros H. rewrite (search_callback_ok _ _ H). destruct (hits response); reflexivity.
Qed.

(** A response in which some hit has no [highlight] holds such a hit. *)
Lemma bare_hit result :
  ¬ Forall (λ hit, is_Some (highlight hit)) result →
  ∃ hit, hit ∈ result ∧ highlight hit = None.
Proof.
  intros H. apply not_Forall_Exists in H; [|intros hit; apply _].
  apply Exists_exists in H as (hit & Hin & Hnone). exists hit. split; [exact Hin|].
  apply eq_None_not_Some. exact Hnone.
Qed.

Lemma to_string_safe n : - 2 ^ 53 < n < 2 ^ 53 → Double.to_string n = pretty n.
Proof.
  intros H. unfold Double.to_string.
  destruct (Z.abs n <? 2 ^ 53) eqn:E; [reflexivity|].
  apply Z.ltb_ge in E. lia.
Qed.

(** X16: when every hit of a stage-1 response carries its [highlight], the
    metadata text after the callback is a function of the total the engine
    reports and of nothing else in the response: the "none" message for 0,
    the "one" message for 1, and otherwise the "other" message, unchanged
    when it has no [#], else with its first [#] replaced by the total as
    the language prints the number, which for a total below [2 ^ 53] in
    absolute value are its decimal digits.  When some hit has no
    [highlight], the callback throws before it gets there and the text
    stays as it was. *)
Theorem result_count_message response st :
  let m := message_ st in
  let n := total response in
  let shown := meta_ (snd (search_callback (inr response) st)) in
  (¬ Forall (λ hit, is_Some (highlight hit)) (hits response) → shown = meta_ st) ∧
  (Forall (λ hit, is_Some (highlight hit)) (hits response) →
   (n = 0 → shown = none m) ∧
   (n = 1 → shown = one m) ∧
   (n ≠ 0 → n ≠ 1 →
    (hash_free (other m) → shown = other m) ∧
    (∀ a b, other m = a +:+ "#" +:+ b → hash_free a →
       shown = a +:+ Double.to_string n +:+ b ∧
       (- 2 ^ 53 < n < 2 ^ 53 → shown = a +:+ pretty n +:+ b)))).
Proof.
  intros m n shown. unfold shown. split.
  - intros H. destruct (bare_hit _ H) as (hit & Hin & Hnone).
    rewrite (search_callback_throw _ hit _ Hin Hnone). reflexivity.
  - intros H. rewrite (search_callback_meta _ _ H).
    fold m n. unfold meta_text. split; [|split].
    + intros ->. reflexivity.
    + intros ->. reflexivity.
    + intros H0 H1.
      destruct (n =? 0) eqn:E0; [apply Z.eqb_eq in E0; contradiction|].
      destruct (n =? 1) eqn:E1; [apply Z.eqb_eq in E1; contradiction|].
      split.
      * apply replace_hash_none.
      * intros a b -> Ha. split.
        -- apply replace_hash_first. exact Ha.
        -- intros Hsafe. rewrite (to_string_safe _ Hsafe).
           apply replace_hash_first. exact Ha.
Qed.

Lemma result_count_message_witness :
  meta_ (snd (search_callback (inr {| hits := []; total := 5 |}) Sample.fresh))
    = "5 matching documents" ∧
  meta_ (snd (search_callback (inr {| hits := []; total := 2 ^ 60 |}) Sample.fresh))
    = "1152921504606847000 matching documents" ∧
  meta_ (snd (search_callback
                (inr {| hits := [Sample.bare "faq" "FAQ"]; total := 5 |}) Sample.fresh))
    = "Type to start searching".
Proof.
  split; [|split].
  - destruct (result_count_message {| hits := []; total := 5 |} Sample.fresh)
      as (_ & H).
    destruct H as (_ & _ & H); [constructor|].
    destruct H as [_ H]; [discriminate | discriminate |].
    apply (H "" " matching documents"); [reflexivity | exact I | vm_compute; auto].
  - destruct (result_count_message {| hits := []; total := 2 ^ 60 |} Sample.fresh)
      as (_ & H).
    destruct H as (_ & _ & H); [constructor|].
    destruct H as [_ H]; [discriminate | discriminate |].
    destruct (H "" " matching documents") as [H' _]; [reflexivity | exact I |].
    rewrite H'. vm_compute. reflexivity.
  - destruct (result_count_message
                {| hits := [Sample.bare "faq" "FAQ"]; total := 5 |} Sample.fresh)
      as (H & _).
    apply H. intros Hall. apply Forall_cons in Hall as [[hl Hhl] _]. discriminate Hhl.
Defined.

(** X17: a stage-1 response with at least one hit, every hit carrying
    its [highlight], dispatches one batch with exactly one section query
    per hit, in hit order; the query for a hit is scoped to that hit's id,
    its size is the number of highlighted title and text fragments of the
    hit, and its text is the stored input value.  A response in which some
    hit has no [highlight] dispatches nothing: the callback throws while it
    builds the batch. *)
Theorem stage2_batch response st :
  let st' := snd (search_callback (inr response) st) in
  (¬ Forall (λ hit, is_Some (highlight hit)) (hits response) →
   requests st' = requests st) ∧
  (Forall (λ hit, is_Some (highlight hit)) (hits response) →
   hits response ≠ [] →
   ∃ body,
     requests st' = requests st ++ [Msearch body (hits response)] ∧
     length body = length (hits response) ∧
     ∀ i hit, hits response !! i = Some hit →
       ∃ hl, highlight hit = Some hl ∧
         body !! i =
           Some (es_index_name st,
                 {| sq_size := (from_option length 0 (hl_title hl) +
                                from_option length 0 (hl_text hl))%nat;
                    sq_parent_id := _id hit;
                    sq_query := value_ st |})).
Proof.
  intros st'. unfold st'. split.
  - intros H. destruct (bare_hit _ H) as (hit & Hin & Hnone).
    rewrite (search_callback_throw _ hit _ Hin Hnone). reflexivity.
  - intros Hall Hne. rewrite (search_callback_ok _ _ Hall).
    exists (map (post_body_of (es_index_name st) (value_ st)) (hits response)).
    split; [destruct (hits response); [contradiction | reflexivity]|].
    split; [apply length_map|].
    intros i hit Hi. rewrite Forall_lookup in Hall. destruct (Hall i hit Hi) as [hl Hhl].
    exists hl. split; [exact Hhl|].
    rewrite list_lookup_fmap, Hi. simpl. unfold post_body_of. rewrite Hhl. reflexivity.
Qed.

Lemma stage2_batch_witness :
  (∃ body,
    requests (snd (search_callback
                     (inr {| hits := [Sample.intro_doc]; total := 1 |})
                     (set_value (Some "intro") Sample.fresh))) =
      [Msearch body [Sample.intro_doc]] ∧
    body = [("mkdocs", {| sq_size := 1; sq_parent_id := "intro";
                           sq_query := Some "intro" |})]) ∧
  requests (snd (search_callback
                   (inr {| hits := [Sample.intro_doc; Sample.bare "faq" "FAQ"];
                           total := 2 |})
                   (set_value (Some "intro") Sample.fresh))) = [].
Proof.
  split.
  - destruct (stage2_batch {| hits := [Sample.intro_doc]; total := 1 |}
                (set_value (Some "intro") Sample.fresh)) as (_ & H).
    destruct H as (body & Hr & Hl & Hb).
    + repeat constructor. eexists. reflexivity.
    + discriminate.
    + exists body. split; [exact Hr|].
      destruct (Hb 0%nat Sample.intro_doc eq_refl) as (hl & Hhl & H0).
      injection Hhl as <-.
      destruct body as [|q [|q' body]]; try discriminate Hl.
      injection H0 as ->. reflexivity.
  - destruct (stage2_batch
                {| hits := [Sample.intro_doc; Sample.bare "faq" "FAQ"]; total := 2 |}
                (set_value (Some "intro") Sample.fresh)) as (H & _).
    apply H. intros Hall. apply Forall_cons in Hall as [_ Hall].
    apply Forall_cons in Hall as [[hl Hhl] _]. discriminate Hhl.
Defined.

Lemma step_search_done container st k index body r :
  requests st !! k = Some (Search index body) →
  step container st (SearchDone k r) =
    snd (performElasticSearchQuery r (set_requests (delete k (requests st)) st)).
Proof. intros Hk. unfold step, handler. msimpl. rewrite Hk. reflexivity. Qed.

(** X18: the section queries take their text from the input value stored
    when the stage-1 response arrives, not from the query that was
    answered: if a second text was typed in the meantime, then the
    response to the first text (at least one hit, every hit carrying its
    [highlight]) has the sections of its hits searched with the second
    text.  (When some hit has no [highlight] no section query leaves at
    all: the query for the second text stays the only request.) *)
Theorem batch_uses_current_value container st v1 v2 response :
  initialized_ st = true → requests st = [] →
  v1 ≠ "" → v2 ≠ "" → v1 ≠ v2 → value_ st ≠ Some v1 →
  let st' := run container st
               [ OnUpdate (keyup_of v1); OnUpdate (keyup_of v2);
                 SearchDone 0 (inr response) ] in
  (Forall (λ hit, is_Some (highlight hit)) (hits response) →
   hits response ≠ [] →
   ∃ body,
     requests st' =
       [ Search (es_index_name st) (buildElasticSearchQuery v2);
         Msearch body (hits response) ] ∧
     length body = length (hits response) ∧
     Forall (λ q, sq_query (snd q) = Some v2) body) ∧
  (¬ Forall (λ hit, is_Some (highlight hit)) (hits response) →
   requests st' = [ Search (es_index_name st) (buildElasticSearchQuery v2) ]).
Proof.
  intros Hi Hr Hv1 Hv2 Hne Hval st'. unfold st'.
  cbn [run fold_left]. rewrite !step_update.
  rewrite (update_accept (keyup_of v1) v1 st) by (simpl; auto).
  destruct v1 as [|c1 v1]; [contradiction|]. cbn [String.length Nat.eqb snd].
  rewrite (update_accept (keyup_of v2) v2) by (simpl; auto; congruence).
  destruct v2 as [|c2 v2]; [contradiction|]. cbn [String.length Nat.eqb snd].
  erewrite step_search_done by (simpl; rewrite Hr; reflexivity).
  unfold performElasticSearchQuery, try_catch. split.
  - intros Hall Hhits. rewrite (search_callback_ok _ _ Hall).
    simpl. rewrite Hr. simpl.
    destruct (hits response) as [|hit rest] eqn:Hh; [contradiction|]. simpl.
    eexists. split; [reflexivity|]. split; [simpl; rewrite length_map; reflexivity|].
    constructor; [reflexivity|].
    apply Forall_forall. intros q Hq. apply list_elem_of_fmap in Hq as (h & -> & _).
    reflexivity.
  - intros H. destruct (bare_hit _ H) as (hit & Hin & Hnone).
    rewrite (search_callback_throw _ hit _ Hin Hnone). simpl. rewrite Hr. reflexivity.
Qed.

Lemma batch_uses_current_value_witness :
  ∃ body,
    requests (run Sample.box (set_initialized true Sample.fresh)
                [ OnUpdate (keyup_of "a"); OnUpdate (keyup_of "ab");
                  SearchDone 0 (inr {| hits := [Sample.intro_doc]; total := 1 |}) ]) =
      [ Search "mkdocs" (buildElasticSearchQuery "ab");
        Msearch body [Sample.intro_doc] ] ∧
    Forall (λ q, sq_query (snd q) = Some "ab") body.
Proof.
  destruct (batch_uses_current_value Sample.box (set_initialized true Sample.fresh)
              "a" "ab" {| hits := [Sample.intro_doc]; total := 1 |})
    as [H _]; try reflexivity; try discriminate.
  destruct H as (body & Hreq & _ & Hall).
  - repeat constructor. eexists. reflexivity.
  - discriminate.
  - exists body. split; [exact Hreq | exact Hall].
Defined.

(** ** Batches that do not line up *)

Lemma aggregate_prefix result section_result : ∀ index st s,
  stack_ st = Some s →
  (∀ i section_hit, section_result !! i = Some section_hit →
     ∃ hit, result !! (index + i)%nat = Some hit ∧ aggregable hit section_hit) →
  ∃ st',
    forEach_index (aggregate_one result) index section_result st = (Ok tt, st') ∧
    stack_ st' = Some (s ++ units_from (length (nodes st)) section_result) ∧
    length (nodes st') = (length (nodes st) + length section_result)%nat ∧
    painted st' = painted st ∧ list_ st' = list_ st.
Proof.
  induction section_result as [|section_hit rest IH]; intros index st s Hst Hall.
  - exists st. simpl. rewrite app_nil_r, Nat.add_0_r. auto.
  - destruct (Hall 0%nat section_hit eq_refl) as (hit & Hhit & Hagg).
    rewrite Nat.add_0_r in Hhit.
    destruct (aggregate_one_ok _ _ _ section_hit _ _ Hhit Hagg Hst) as (a & _ & Hone).
    cbn [forEach_index]. rewrite (bind_ok _ _ _ _ _ Hone).
    destruct (IH (S index)
                (set_stack (Some (s ++ units_for (length (nodes st)) section_hit))
                   (set_nodes (nodes st ++ [a]) st))
                (s ++ units_for (length (nodes st)) section_hit))
      as (st' & Hrun & Hstack & Hlen & Hp & Hl); [reflexivity | |].
    { intros i secs Hi. replace (S index + i)%nat with (index + S i)%nat by lia.
      apply Hall. exact Hi. }
    exists st'. split; [exact Hrun|]. simpl in *.
    rewrite length_app in Hstack, Hlen. simpl in Hstack, Hlen.
    rewrite Nat.add_1_r in Hstack. rewrite Hstack, <- app_assoc.
    split; [reflexivity|]. split; [lia | auto].
Qed.

Lemma forEach_index_app {A} (f : nat → A → M unit) l1 l2 : ∀ index st,
  forEach_index f index (l1 ++ l2) st =
    (forEach_index f index l1;; forEach_index f (index + length l1) l2) st.
Proof.
  induction l1 as [|x l1 IH]; intros index st.
  - simpl. rewrite Nat.add_0_r. reflexivity.
  - cbn [forEach_index app length]. specialize (IH (S index)).
    replace (S index + length l1)%nat with (index + S (length l1))%nat in IH by lia.
    unfold mbind, M_bind in *.
    destruct (f index x st) as [[[]|e] st1]; [apply IH | reflexivity].
Qed.

Lemma teaser_loop_needs t batch : ∀ acc teaser,
  teaser_loop t batch acc = Ok teaser →
  ∀ s, s ∈ batch → title (_source s) = t → is_Some (highlight s).
Proof.
  induction batch as [|s' rest IH]; intros acc teaser Hrun s Hin Ht.
  - apply elem_of_nil in Hin. contradiction.
  - cbn [teaser_loop] in Hrun.
    destruct (String.eqb (title (_source s')) t) eqn:Et.
    + unfold read_highlight in Hrun. destruct (highlight s') as [hl|] eqn:Hs';
        [|discriminate Hrun].
      apply elem_of_cons in Hin as [->|Hin]; [exists hl; exact Hs'|].
      destruct (hl_text hl); exact (IH _ _ Hrun s Hin Ht).
    + apply elem_of_cons in Hin as [->|Hin]; [|exact (IH _ _ Hrun s Hin Ht)].
      apply String.eqb_neq in Et. contradiction.
Qed.

Lemma article_node_needs base_url hit section_hit a :
  article_node base_url hit section_hit = Ok a → aggregable hit section_hit.
Proof.
  unfold article_node, read_highlight. intros H.
  destruct (highlight hit) as [hl|] eqn:Hhl; [|discriminate H].
  split; [exists hl; exact Hhl|].
  destruct (teaser_loop (title (_source hit)) section_hit (Some "")) as [teaser|e] eqn:Ht;
    [|discriminate H].
  exact (teaser_loop_needs _ _ _ _ Ht).
Qed.

Lemma aggregate_one_needs result index section_hit st st' :
  aggregate_one result index section_hit st = (Ok tt, st') →
  ∃ hit, result !! index = Some hit ∧ aggregable hit section_hit.
Proof.
  unfold aggregate_one. msimpl. intros H.
  destruct (result !! index) as [hit|]; [|discriminate H].
  exists hit. split; [reflexivity|].
  revert H. msimpl.
  destruct (article_node (base_url_ st) hit section_hit) as [a|e] eqn:Ha;
    [|discriminate].
  intros _. exact (article_node_needs _ _ _ _ Ha).
Qed.

Lemma aggregate_needs result section_result : ∀ index st st',
  forEach_index (aggregate_one result) index section_result st = (Ok tt, st') →
  ∀ i section_hit, section_result !! i = Some section_hit →
    ∃ hit, result !! (index + i)%nat = Some hit ∧ aggregable hit section_hit.
Proof.
  induction section_result as [|first rest IH]; intros index st st' Hrun i section_hit Hi;
    [discriminate Hi|].
  cbn [forEach_index] in Hrun. unfold mbind, M_bind in Hrun.
  destruct (aggregate_one result index first st) as [[[]|e] st1] eqn:Hone;
    [|discriminate Hrun].
  destruct i as [|i].
  - injection Hi as <-. rewrite Nat.add_0_r. exact (aggregate_one_needs _ _ _ _ _ Hone).
  - replace (index + S i)%nat with (S index + i)%nat by lia.
    exact (IH _ _ _ Hrun i section_hit Hi).
Qed.

(** X19: once the queue exists, the aggregation of a batch response runs to
    its end exactly when the batch has no more elements than there are
    stage-1 hits and every hit that has a batch element carries its
    [highlight], as does each section of that element that shares its
    title.  Under that condition a batch shorter than the stage-1 hits is
    accepted: units are built for its elements only and the remaining
    documents get none.  A batch with more elements than hits, whose
    aligned part meets the condition, makes the callback throw a
    [TypeError] at the first extra element, after the units of the aligned
    part were queued and before anything is painted. *)
Theorem misaligned_batch container result st s :
  stack_ st = Some s →
  (∀ section_result,
     (∃ st', aggregate result section_result st = (Ok tt, st')) ↔
     ((length section_result ≤ length result)%nat ∧
      ∀ i hit section_hit, result !! i = Some hit →
        section_result !! i = Some section_hit → aggregable hit section_hit)) ∧
  (∀ section_result,
     (length section_result ≤ length result)%nat →
     (∀ i hit section_hit, result !! i = Some hit →
        section_result !! i = Some section_hit → aggregable hit section_hit) →
     ∃ st', aggregate result section_result st = (Ok tt, st') ∧
            stack_ st' = Some (s ++ units_from (length (nodes st)) section_result) ∧
            length (nodes st') = (length (nodes st) + length section_result)%nat) ∧
  (∀ aligned extra more,
     length aligned = length result →
     (∀ i hit section_hit, result !! i = Some hit →
        aligned !! i = Some section_hit → aggregable hit section_hit) →
     ∃ st', msearch_callback container result (inr (aligned ++ extra :: more)) st
              = (Throw TypeError, st') ∧
            stack_ st' = Some (s ++ units_from (length (nodes st)) aligned) ∧
            painted st' = painted st).
Proof.
  intros Hst.
  assert (∀ section_result,
     (length section_result ≤ length result)%nat →
     (∀ i hit section_hit, result !! i = Some hit →
        section_result !! i = Some section_hit → aggregable hit section_hit) →
     ∃ st', aggregate result section_result st = (Ok tt, st') ∧
            stack_ st' = Some (s ++ units_from (length (nodes st)) section_result) ∧
            length (nodes st') = (length (nodes st) + length section_result)%nat)
    as Hshort.
  { intros section_result Hlen Hall.
    destruct (aggregate_prefix result section_result 0 st s Hst)
      as (st' & H1 & H2 & H3 & _).
    { intros i section_hit Hi. simpl.
      destruct (lookup_lt_is_Some_2 result i) as [hit Hhit].
      { apply lookup_lt_Some in Hi. lia. }
      exists hit. split; [exact Hhit | exact (Hall i hit section_hit Hhit Hi)]. }
    exists st'. auto. }
  split; [|split; [exact Hshort|]].
  - intros section_result. split.
    + intros [st' Hrun]. unfold aggregate in Hrun.
      pose proof (aggregate_needs _ _ _ _ _ Hrun) as Hneeds. split.
      * destruct (decide (length section_result ≤ length result)%nat) as [|Hgt];
          [assumption|].
        destruct (lookup_lt_is_Some_2 section_result (length result)) as [secs Hsecs];
          [lia|].
        destruct (Hneeds _ _ Hsecs) as (hit & Hhit & _). simpl in Hhit.
        apply lookup_lt_Some in Hhit. lia.
      * intros i hit section_hit Hhit Hi.
        destruct (Hneeds _ _ Hi) as (hit' & Hhit' & Hagg). simpl in Hhit'.
        congruence.
    + intros [Hlen Hall]. destruct (Hshort section_result Hlen Hall) as (st' & Hrun & _).
      exists st'. exact Hrun.
  - intros aligned extra more Hlen Hall.
    destruct (aggregate_prefix result aligned 0 st s Hst)
      as (st' & H1 & H2 & _ & H4 & _).
    { intros i section_hit Hi. simpl.
      destruct (lookup_lt_is_Some_2 result i) as [hit Hhit].
      { apply lookup_lt_Some in Hi. lia. }
      exists hit. split; [exact Hhit | exact (Hall i hit section_hit Hhit Hi)]. }
    exists st'. unfold msearch_callback, aggregate.
    assert (forEach_index (aggregate_one result) 0 (aligned ++ extra :: more) st
            = (Throw TypeError, st')) as Hthrow.
    { rewrite forEach_index_app. rewrite (bind_ok _ _ _ _ _ H1).
      cbn [forEach_index]. apply bind_throw. unfold aggregate_one. msimpl.
      rewrite (lookup_ge_None_2 result) by lia. reflexivity. }
    rewrite (bind_throw _ _ _ _ _ Hthrow). auto.
Qed.

Lemma misaligned_batch_witness :
  ∃ st', msearch_callback Sample.box [Sample.intro_doc]
           (inr ([Sample.intro_batch] ++ [] :: []))
           (set_stack (Some []) Sample.fresh) = (Throw TypeError, st') ∧
         painted st' = [].
Proof.
  destruct (misaligned_batch Sample.box [Sample.intro_doc]
              (set_stack (Some []) Sample.fresh) []) as (_ & _ & H); [reflexivity|].
  destruct (H [Sample.intro_batch] [] []) as (st' & Hrun & _ & Hp).
  - reflexivity.
  - intros [|i] hit section_hit Hh Hs; [|discriminate Hh].
    injection Hh as <-. injection Hs as <-.
    split; [eexists; reflexivity|].
    intros s Hin _. apply list_elem_of_In in Hin. simpl in Hin.
    destruct Hin as [<-|[<-|[]]]; eexists; reflexivity.
  - exists st'. split; [exact Hrun | exact Hp].
Defined.

(** ** Drains settle *)

Section Settle.

Variable container : Container.

Lemma eager_drain_settled st q :
  stack_ st = Some q → (q = [] ∨ has_room container st = false) →
  eager_drain container st = (Ok tt, st).
Proof.
  intros Hst Hexit. rewrite (eager_drain_unfold _ _ _ Hst).
  destruct q as [|u q]; [reflexivity|]. destruct Hexit as [H|H]; [discriminate|].
  cbn [eager_loop]. msimpl. rewrite H. reflexivity.
Qed.

Lemma on_scroll_settled scrollTop st q :
  stack_ st = Some q → (q = [] ∨ near_bottom container scrollTop st = false) →
  on_scroll container scrollTop st = (Ok tt, st).
Proof.
  intros Hst Hexit. rewrite (on_scroll_unfold _ _ _ _ Hst).
  rewrite (scroll_loop_unfold _ _ _ _ _ Hst).
  destruct Hexit as [->|H]; [reflexivity|]. rewrite H, andb_false_r. reflexivity.
Qed.

(** X20: the eager loop (no closure throwing) paints a prefix of the
    queue and stops with the queue empty or the container without room;
    running it again then changes nothing, and with no room at the start
    it paints nothing. *)
Theorem eager_drain_settles st q :
  stack_ st = Some q → Forall renderable q →
  ∃ n st',
    eager_drain container st = (Ok tt, st') ∧
    painted st' = painted st ++ take n q ∧ stack_ st' = Some (drop n q) ∧
    (drop n q = [] ∨ has_room container st' = false) ∧
    eager_drain container st' = (Ok tt, st') ∧
    (has_room container st = false → st' = st).
Proof.
  intros Hst Hq.
  destruct (eager_drain_ok container st q Hst Hq) as (n & st' & Hrun & [Hp _] & Hs & Hexit).
  exists n, st'. split; [exact Hrun|]. split; [exact Hp|]. split; [exact Hs|].
  split; [exact Hexit|]. split.
  - apply (eager_drain_settled st' (drop n q)); assumption.
  - intros Hroom. rewrite (eager_drain_settled st q Hst) in Hrun by auto.
    congruence.
Qed.

(** X21: with no closure throwing, a second scroll event at the same
    position right after the first finds nothing to do. *)
Theorem repeated_scroll_is_idle scrollTop st q :
  initialized_ st = true → stack_ st = Some q → Forall renderable q →
  run container st [OnScroll scrollTop; OnScroll scrollTop]
    = step container st (OnScroll scrollTop).
Proof.
  intros Hi Hst Hq. cbn [run fold_left].
  destruct (quiet_scroll_step container scrollTop st) as (_ & _ & _ & _ & _ & Hi' & _).
  rewrite Hi in Hi'.
  remember (step container st (OnScroll scrollTop)) as st1 eqn:Hst1.
  rewrite (step_scroll container st1 scrollTop Hi').
  rewrite (step_scroll container st scrollTop Hi) in Hst1.
  destruct (on_scroll_ok container scrollTop st q Hst Hq) as (k & st' & Hrun & _ & Hs & Hexit).
  rewrite Hrun in Hst1. simpl in Hst1. subst st1.
  rewrite (on_scroll_settled scrollTop st' (drop (10 * k) q) Hs Hexit). reflexivity.
Qed.

End Settle.

Lemma eager_drain_settles_witness :
  ∃ n st',
    eager_drain (Sample.strip 40) Sample.twelve = (Ok tt, st') ∧
    painted st' = painted Sample.twelve ++ take n (map DocumentUnit (seq 0 12)) ∧
    st' = Sample.twelve.
Proof.
  destruct (eager_drain_settles (Sample.strip 40) Sample.twelve (map DocumentUnit (seq 0 12)))
    as (n & st' & Hrun & Hp & _ & _ & _ & Hsame).
  - reflexivity.
  - repeat constructor.
  - exists n, st'. split; [exact Hrun|]. split; [exact Hp|]. apply Hsame. reflexivity.
Defined.

Lemma repeated_scroll_is_idle_witness :
  run (Sample.strip 40) Sample.twelve [OnScroll 600; OnScroll 600]
    = step (Sample.strip 40) Sample.twelve (OnScroll 600).
Proof.
  apply (repeated_scroll_is_idle (Sample.strip 40) 600 Sample.twelve
           (map DocumentUnit (seq 0 12))); [reflexivity | reflexivity | repeat constructor].
Defined.

(** ** What is painted *)

(** X22: the element a section closure builds links to the base URL and
    the hit's location, and its teaser is [truncate] at 200 of the first
    highlighted text fragment when the text was highlighted (fragments are
    cut like plain text) and of the plain text otherwise, so it is never
    longer than 203 characters. *)
Theorem section_teaser base_url hit n :
  section_node base_url hit = Ok n →
  ∃ hl t,
    highlight hit = Some hl ∧ section_text hit hl = Some t ∧
    sec_teaser n = truncate t 200 ∧
    (String.length (sec_teaser n) ≤ 203)%nat ∧
    sec_href n = base_url +:+ "/" +:+ location (_source hit) ∧
    sec_title_html n = first_or (hl_title hl) (title (_source hit)).
Proof.
  unfold section_node, read_highlight.
  destruct (highlight hit) as [hl|]; [|discriminate].
  unfold section_text.
  destruct (first_or (hl_text hl) (text (_source hit))) as [t|] eqn:Ht; [|discriminate].
  simpl. intros [= <-]. exists hl, t. simpl.
  split; [reflexivity|]. split; [exact Ht|]. split; [reflexivity|].
  split; [apply truncate_bound | auto].
Qed.

Lemma section_teaser_witness :
  ∃ n, section_node "https://docs" (Sample.sec "intro/#a" "Intro" "<em>one</em>") = Ok n ∧
       sec_teaser n = "<em>one</em>".
Proof.
  eexists. split; [reflexivity|].
  destruct (section_teaser "https://docs" (Sample.sec "intro/#a" "Intro" "<em>one</em>") _
              eq_refl) as (hl & t & Hhl & Ht & Hteaser & _).
  injection Hhl as <-. injection Ht as <-. exact Hteaser.
Defined.

Lemma render_section_ok a hit st :
  highlighted hit →
  ∃ n, section_node (base_url_ st) hit = Ok n ∧
       render (SectionUnit a hit) st =
         (Ok tt, set_painted (painted st ++ [SectionUnit a hit])
                   (set_nodes (alter (add_section n) a (nodes st)) st)).
Proof.
  intros Hh. destruct (section_node_ok (base_url_ st) hit Hh) as [n Hn].
  exists n. split; [exact Hn|]. simpl. msimpl. rewrite Hn. reflexivity.
Qed.

Lemma paint_sections a section_hit : ∀ st art,
  nodes st !! a = Some art → Forall highlighted section_hit →
  ∃ st' ns art',
    forEach render (map (SectionUnit a) section_hit) st = (Ok tt, st') ∧
    Forall2 (λ hit n, section_node (base_url_ st) hit = Ok n) section_hit ns ∧
    nodes st' !! a = Some art' ∧
    art_sections art' = art_sections art ++ ns ∧
    art_title art' = art_title art ∧ art_href art' = art_href art ∧
    art_teaser art' = art_teaser art ∧
    (∀ b, b ≠ a → nodes st' !! b = nodes st !! b) ∧
    list_ st' = list_ st ∧ base_url_ st' = base_url_ st.
Proof.
  induction section_hit as [|hit rest IH]; intros st art Ha Hall.
  - exists st, [], art. simpl. rewrite app_nil_r. repeat split; auto.
  - apply Forall_cons in Hall as [Hh Hrest].
    destruct (render_section_ok a hit st Hh) as (n & Hn & Hr).
    cbn [map forEach]. rewrite (bind_ok _ _ _ _ _ Hr).
    destruct (IH (set_painted (painted st ++ [SectionUnit a hit])
                    (set_nodes (alter (add_section n) a (nodes st)) st))
                 (add_section n art))
      as (st' & ns & art' & Hrun & Hns & Hlook & Hsec & Ht & Hhref & Hte & Hother & Hl & Hb);
      [simpl; rewrite list_lookup_alter_eq, Ha; reflexivity | exact Hrest |].
    exists st', (n :: ns), art'. simpl in *.
    split; [exact Hrun|]. split; [constructor; assumption|].
    split; [exact Hlook|]. split; [rewrite Hsec, <- app_assoc; reflexivity|].
    repeat split; try assumption.
    intros b Hb'. rewrite (Hother b Hb'). apply list_lookup_alter_ne. congruence.
Qed.

(** X23: running the units of one document (every section carrying its
    [highlight]) appends its article to the result list, moving it to the
    end if it was there, and appends one element per section hit to that
    article, in response order; title, link and teaser of the article and
    all other articles stay as they were. *)
Theorem painting_a_document a section_hit st art :
  nodes st !! a = Some art → Forall highlighted section_hit →
  ∃ st' ns art',
    forEach render (units_for a section_hit) st = (Ok tt, st') ∧
    Forall2 (λ hit n, section_node (base_url_ st) hit = Ok n) section_hit ns ∧
    list_ st' = appendChild (list_ st) a ∧
    nodes st' !! a = Some art' ∧
    art_sections art' = art_sections art ++ ns ∧
    art_title art' = art_title art ∧ art_href art' = art_href art ∧
    art_teaser art' = art_teaser art ∧
    (∀ b, b ≠ a → nodes st' !! b = nodes st !! b).
Proof.
  intros Ha Hall. unfold units_for. cbn [forEach].
  rewrite (bind_ok _ _ st tt
             (set_painted (painted st ++ [DocumentUnit a])
                (set_list (appendChild (list_ st) a) st))) by reflexivity.
  destruct (paint_sections a section_hit
              (set_painted (painted st ++ [DocumentUnit a])
                 (set_list (appendChild (list_ st) a) st)) art Ha Hall)
    as (st' & ns & art' & Hrun & Hns & Hlook & Hsec & Ht & Hhref & Hte & Hother & Hl & _).
  exists st', ns, art'. simpl in *. auto 12.
Qed.

Lemma painting_a_document_witness :
  ∃ st' art',
    forEach render (units_for 0 Sample.intro_batch)
      (set_nodes [{| art_href := "https://docs/intro/"; art_title := "Intro";
                     art_title_html := Some "<em>Intro</em>";
                     art_teaser := Some "<em>two</em>"; art_sections := [] |}]
         Sample.fresh) = (Ok tt, st') ∧
    list_ st' = [0%nat] ∧ nodes st' !! 0%nat = Some art' ∧
    length (art_sections art') = 2%nat.
Proof.
  destruct (painting_a_document 0 Sample.intro_batch
              (set_nodes [{| art_href := "https://docs/intro/"; art_title := "Intro";
                             art_title_html := Some "<em>Intro</em>";
                             art_teaser := Some "<em>two</em>"; art_sections := [] |}]
                 Sample.fresh) _ eq_refl)
    as (st' & ns & art' & Hrun & Hns & Hl & Hlook & Hsec & _).
  - repeat constructor; (eexists; split; [reflexivity|]; split; discriminate).
  - exists st', art'. split; [exact Hrun|]. split; [exact Hl|]. split; [exact Hlook|].
    rewrite Hsec. apply Forall2_length in Hns. simpl in *. lia.
Defined.

(** ** Construction *)

Lemma translate_cases document key :
  (∃ content, translate document key = Ok content) ∨
  translate document key = Throw ReferenceError.
Proof.
  unfold translate. destruct (List.find _ document) as [[name [content|]]|]; eauto.
Qed.

(** X25: [translate] returns the content of the first element named
    [lang:key] when that element is a [<meta>] element, and only then: a
    missing name, or a first element of another kind, is a
    [ReferenceError] even if a [<meta>] of that name follows. *)
Theorem translate_finds_first document key content :
  translate document key = Ok content ↔
  ∃ pre post,
    document = pre ++ ("lang:" +:+ key, MetaElement content) :: post ∧
    Forall (λ e, fst e ≠ "lang:" +:+ key) pre.
Proof.
  unfold translate. induction document as [|[name el] document IH]; simpl.
  - split; [discriminate|]. intros (pre & post & H & _). destruct pre; discriminate H.
  - destruct (String.eqb name ("lang:" +:+ key)) eqn:E.
    + apply String.eqb_eq in E. subst name. split.
      * destruct el as [c|]; [|discriminate]. intros [= ->].
        exists [], document. split; [reflexivity | constructor].
      * intros (pre & post & H & Hpre). destruct pre as [|[n e] pre].
        -- injection H as Hel _. rewrite Hel. reflexivity.
        -- injection H as Hn _ _. apply Forall_cons in Hpre as [Hne _].
           simpl in Hne. congruence.
    + apply String.eqb_neq in E. rewrite IH. split.
      * intros (pre & post & -> & Hpre). exists ((name, el) :: pre), post.
        split; [reflexivity|]. constructor; assumption.
      * intros (pre & post & H & Hpre). destruct pre as [|[n e] pre].
        -- injection H as Hn _ _. contradiction.
        -- injection H as _ _ Hd. apply Forall_cons in Hpre as [_ Hpre].
           exists pre, post. split; [exact Hd | exact Hpre].
Qed.

(** X26: the constructor throws a [ReferenceError] when [el] is no
    element, a [TypeError] when it has no child to read the placeholder
    from, and a [ReferenceError] when one of the five translations is
    missing; otherwise it yields the instance as constructed, with the
    placeholder taken from the metadata element, the three messages from
    their translations and [lang_] parsed from the language list. *)
Theorem construction el base_url index_name document :
  match el with
  | None =>
      new_Result el base_url index_name document = Throw ReferenceError
  | Some None =>
      new_Result el base_url index_name document = Throw TypeError
  | Some (Some textContent) =>
      (Forall (λ key, ∃ content, translate document key = Ok content) translated_keys →
       ∃ m settings,
         new_Result el base_url index_name document
           = Ok (construct base_url index_name m, settings) ∧
         placeholder m = textContent ∧
         translate document "search.result.none" = Ok (none m) ∧
         translate document "search.result.one" = Ok (one m) ∧
         translate document "search.result.other" = Ok (other m) ∧
         ∃ language, translate document "search.language" = Ok language ∧
                     lang_ settings = Lang.parse language) ∧
      (¬ Forall (λ key, ∃ content, translate document key = Ok content) translated_keys →
       new_Result el base_url index_name document = Throw ReferenceError)
  end.
Proof.
  destruct el as [[textContent|]|]; [|reflexivity|reflexivity].
  unfold translated_keys. cbn [new_Result]. split.
  - intros H. repeat (apply Forall_cons in H as [[? ->] H]).
    eexists _, _. split; [reflexivity|]. simpl. repeat split; eauto.
  - intros H.
    destruct (translate_cases document "search.result.none") as [[c1 H1]|H1];
      rewrite H1; [|reflexivity].
    destruct (translate_cases document "search.result.one") as [[c2 H2]|H2];
      rewrite H2; [|reflexivity].
    destruct (translate_cases document "search.result.other") as [[c3 H3]|H3];
      rewrite H3; [|reflexivity].
    destruct (translate_cases document "search.tokenizer") as [[c4 H4]|H4];
      rewrite H4; [|reflexivity].
    destruct (translate_cases document "search.language") as [[c5 H5]|H5];
      rewrite H5; [|reflexivity].
    exfalso. apply H. repeat constructor; eauto.
Qed.

Lemma construction_witness :
  ∃ settings,
    new_Result (Some (Some "Type to start searching")) "https://docs" "mkdocs"
      Page.document = Ok (Sample.fresh, settings) ∧
    lang_ settings = ["en"; "de"].
Proof.
  pose proof (construction (Some (Some "Type to start searching")) "https://docs" "mkdocs"
                Page.document) as [H _].
  destruct H as (m & settings & Hnew & Hp & Hn & Ho & Hot & language & Hl & Hs).
  - repeat constructor; eexists; reflexivity.
  - exists settings. injection Hl as <-. split; [|exact Hs].
    destruct m as [p n o ot]. simpl in *.
    injection Hn as <-. injection Ho as <-. injection Hot as <-. subst p. exact Hnew.
Defined.

(** ** Languages *)

Lemma split_nonempty s : Lang.split s ≠ [].
Proof.
  destruct s as [|c s]; simpl; [discriminate|].
  destruct (Ascii.eqb c ","); [discriminate|]. destruct (Lang.split s); discriminate.
Qed.

Lemma join_cons piece rest :
  rest ≠ [] → Lang.join (piece :: rest) = piece +:+ "," +:+ Lang.join rest.
Proof. destruct rest; [contradiction | reflexivity]. Qed.

Lemma join_split s : Lang.join (Lang.split s) = s.
Proof.
  induction s as [|c s IH]; [reflexivity|]. simpl.
  destruct (Ascii.eqb c ",") eqn:E.
  - apply Ascii.eqb_eq in E. subst c.
    rewrite join_cons by apply split_nonempty. rewrite IH. reflexivity.
  - pose proof (split_nonempty s) as Hne.
    destruct (Lang.split s) as [|piece [|p pieces]]; [contradiction| |];
      simpl in *; rewrite <- IH; reflexivity.
Qed.

Lemma split_comma_free s : Forall Lang.comma_free (Lang.split s).
Proof.
  induction s as [|c s IH]; simpl; [repeat constructor|].
  destruct (Ascii.eqb c ",") eqn:E.
  - constructor; [exact I | exact IH].
  - apply Ascii.eqb_neq in E.
    destruct (Lang.split s) as [|piece pieces]; [repeat constructor; assumption|].
    apply Forall_cons in IH as [Hp Hps]. constructor; [split; assumption | exact Hps].
Qed.

Lemma split_comma_free_piece piece :
  Lang.comma_free piece → Lang.split piece = [piece].
Proof.
  induction piece as [|c piece IH]; [reflexivity|]. intros [Hc Hp]. simpl.
  destruct (Ascii.eqb c ",") eqn:E; [apply Ascii.eqb_eq in E; contradiction|].
  rewrite IH by exact Hp. reflexivity.
Qed.

Lemma split_append piece rest :
  Lang.comma_free piece →
  Lang.split (piece +:+ "," +:+ rest) = piece :: Lang.split rest.
Proof.
  induction piece as [|c piece IH]; [reflexivity|]. intros [Hc Hp]. simpl.
  destruct (Ascii.eqb c ",") eqn:E; [apply Ascii.eqb_eq in E; contradiction|].
  rewrite IH by exact Hp. reflexivity.
Qed.

Lemma split_join pieces :
  pieces ≠ [] → Forall Lang.comma_free pieces → Lang.split (Lang.join pieces) = pieces.
Proof.
  induction pieces as [|piece rest IH]; [contradiction|]. intros _ H.
  apply Forall_cons in H as [Hp Hrest]. destruct rest as [|p rest].
  - simpl. apply split_comma_free_piece. exact Hp.
  - rewrite join_cons by discriminate. rewrite split_append by exact Hp.
    rewrite IH by (try discriminate; exact Hrest). reflexivity.
Qed.

(** X27: splitting at commas and joining with commas are inverse to each
    other: joining the pieces of a string gives the string back, no piece
    holds a comma, and a non-empty list of comma-free pieces is recovered
    from its joined form. *)
Theorem split_round_trip s pieces :
  Lang.join (Lang.split s) = s ∧
  Forall Lang.comma_free (Lang.split s) ∧
  (pieces ≠ [] → Forall Lang.comma_free pieces →
   Lang.split (Lang.join pieces) = pieces).
Proof.
  split; [apply join_split|]. split; [apply split_comma_free | apply split_join].
Qed.

Lemma split_round_trip_witness :
  Lang.split (Lang.join ["en"; ""; " de"]) = ["en"; ""; " de"].
Proof.
  destruct (split_round_trip "" ["en"; ""; " de"]) as (_ & _ & H).
  apply H; [discriminate|]. repeat constructor; discriminate.
Defined.

Lemma trim_start_cases s :
  (Lang.trim_start s = "" ∧ Lang.blank s = true) ∨
  (∃ c rest, Lang.trim_start s = String c rest ∧ Lang.is_white c = false ∧
             Lang.blank s = false).
Proof.
  induction s as [|c s IH]; simpl; [left; auto|].
  destruct (Lang.is_white c) eqn:E; [exact IH|].
  right. exists c, s. auto.
Qed.

Lemma trim_end_head c rest :
  Lang.is_white c = false →
  ∃ t, Lang.trim_end (String c rest) = String c t.
Proof.
  intros H. simpl. destruct (Lang.trim_end rest); rewrite ?H; eauto.
Qed.

Lemma trim_end_idem s : Lang.trim_end (Lang.trim_end s) = Lang.trim_end s.
Proof.
  induction s as [|c s IH]; [reflexivity|]. simpl.
  destruct (Lang.trim_end s) as [|d t] eqn:E.
  - destruct (Lang.is_white c) eqn:Hc; [reflexivity|]. simpl. rewrite Hc. reflexivity.
  - cbn [Lang.trim_end]. cbn [Lang.trim_end] in IH. rewrite IH. reflexivity.
Qed.

Lemma trim_trimmed s : Lang.trimmed (Lang.trim s).
Proof.
  unfold Lang.trim, Lang.trimmed. split; [|apply trim_end_idem].
  destruct (trim_start_cases s) as [[-> _]|(c & rest & -> & Hc & _)]; [exact I|].
  destruct (trim_end_head c rest Hc) as [t ->]. exact Hc.
Qed.

Lemma trim_empty s : Lang.trim s = "" ↔ Lang.blank s = true.
Proof.
  unfold Lang.trim.
  destruct (trim_start_cases s) as [[-> Hb]|(c & rest & -> & Hc & Hb)].
  - split; auto.
  - destruct (trim_end_head c rest Hc) as [t ->]. rewrite Hb. split; discriminate.
Qed.

Lemma trim_start_comma_free s : Lang.comma_free s → Lang.comma_free (Lang.trim_start s).
Proof.
  induction s as [|c s IH]; [auto|]. intros [Hc Hs]. simpl.
  destruct (Lang.is_white c); [apply IH; exact Hs | split; assumption].
Qed.

Lemma trim_end_comma_free s : Lang.comma_free s → Lang.comma_free (Lang.trim_end s).
Proof.
  induction s as [|c s IH]; [auto|]. intros [Hc Hs]. simpl.
  specialize (IH Hs). destruct (Lang.trim_end s) as [|d t].
  - destruct (Lang.is_white c); simpl; auto.
  - split; assumption.
Qed.

Lemma parse_elem l value :
  l ∈ Lang.parse value ↔
  ∃ piece, piece ∈ Lang.split value ∧ piece ≠ "" ∧ l = Lang.trim piece.
Proof.
  unfold Lang.parse. rewrite list_elem_of_fmap. split.
  - intros (piece & -> & Hin). apply list_elem_of_In, filter_In in Hin as [Hin Ht].
    exists piece. split; [apply list_elem_of_In; exact Hin|].
    split; [destruct piece; [discriminate Ht | discriminate] | reflexivity].
  - intros (piece & Hin & Hne & ->). exists piece. split; [reflexivity|].
    apply list_elem_of_In, filter_In. split; [apply list_elem_of_In; exact Hin|].
    destruct piece; [contradiction | reflexivity].
Qed.

(** X28: every language the constructor keeps is free of commas and of
    white space at either end; the empty pieces of the list are dropped
    before trimming, so an empty language is kept exactly when some piece
    consists of white space only. *)
Theorem languages_are_trimmed value :
  (∀ l, l ∈ Lang.parse value → Lang.trimmed l ∧ Lang.comma_free l) ∧
  ("" ∈ Lang.parse value ↔
   ∃ piece, piece ∈ Lang.split value ∧ piece ≠ "" ∧ Lang.blank piece = true).
Proof.
  split.
  - intros l Hl. apply parse_elem in Hl as (piece & Hin & _ & ->).
    split; [apply trim_trimmed|].
    apply trim_end_comma_free, trim_start_comma_free.
    pose proof (split_comma_free value) as H. rewrite Forall_forall in H. auto.
  - rewrite parse_elem. split.
    + intros (piece & Hin & Hne & Ht). exists piece. split; [exact Hin|].
      split; [exact Hne|]. apply trim_empty. symmetry. exact Ht.
    + intros (piece & Hin & Hne & Hb). exists piece. split; [exact Hin|].
      split; [exact Hne|]. symmetry. apply trim_empty. exact Hb.
Qed.

Lemma languages_are_trimmed_witness : "" ∈ Lang.parse "en, ,de".
Proof.
  destruct (languages_are_trimmed "en, ,de") as [_ H]. apply H.
  exists " ". split; [|split; [discriminate | reflexivity]].
  right. left.
Defined.
